(** * i* goal model to UVL feature model: the classification and rendering pipeline

    The repository holds two variants of one script:
    - [src/iStar-UVL.py]  (lxml + unidecode), embedded in [Module V1];
    - [src/istar-uvl.py]  (ElementTree + unicodedata), embedded in [Module V2].
    Functions whose bodies are the same in both files ([cleanLabelText],
    [applyDefaultValues], [mapIStarObjectsToFeatures], [buildUvlModel]) are
    embedded once, before the two modules.

    A Python [str] is a sequence of Unicode code points: it is a [list N] here.
    A [dict] is a [gmap], a [set] a [gset]; [None] is the [None] of [option];
    an exception is the [Raise] of [result]. The XML parser behind
    [parseIStarXml] and the file written by [generateUvlFromIStarXml] stay
    outside: the parsed tree is the list of its [object] elements, the run
    returns the text it writes, and a configuration directory is a map from
    paths to lines. *)

From Stdlib Require Import String Ascii NArith List Lia.
From stdpp Require Import base tactics option list sorting lexico gmap.

Local Open Scope N_scope.
Set Warnings "-clear-no-such-hyp".

Abbreviation char := N (only parsing).
Abbreviation str := (list N) (only parsing).

(** [py "abc"] is the Python literal ["abc"] (ASCII only). *)
Definition py (s : string) : str := N_of_ascii <$> list_ascii_of_string s.
Arguments py : simpl never.

(** ** Exceptions *)

Inductive exn := FileNotFoundError | ValueError.

Inductive result (A : Type) :=
| Ok (a : A)
| Raise (e : exn).
Arguments Ok {A} a.
Arguments Raise {A} e.

#[global] Instance result_ret : MRet result := λ A a, Ok a.
#[global] Instance result_bind : MBind result := λ A B k r,
  match r with
  | Ok a => k a
  | Raise e => Raise e
  end.

(** ** The methods of [str] the scripts call *)

Module Py.

(** [str.isspace] on one code point, which is also what [strip()] and
    [split()] without argument test: CPython's [_PyUnicode_IsWhitespace]. *)
Definition isspace (c : char) : bool :=
  (9 <=? c) && (c <=? 13) || (28 <=? c) && (c <=? 32) ||
  (c =? 0x85) || (c =? 0xA0) || (c =? 0x1680) ||
  (0x2000 <=? c) && (c <=? 0x200A) ||
  (c =? 0x2028) || (c =? 0x2029) || (c =? 0x202F) || (c =? 0x205F) ||
  (c =? 0x3000).

Fixpoint lstrip (s : str) : str :=
  match s with
  | c :: t => if isspace c then lstrip t else s
  | [] => []
  end.

Definition rstrip (s : str) : str := rev (lstrip (rev s)).

(** [s.strip()] *)
Definition strip (s : str) : str := rstrip (lstrip s).

(** [s.split()]: the maximal runs of non-whitespace; [cur] is the run being
    read. *)
Fixpoint split_from (cur : str) (s : str) : list str :=
  match s with
  | [] => match cur with [] => [] | _ => [cur] end
  | c :: t =>
      if isspace c
      then match cur with [] => split_from [] t | _ => cur :: split_from [] t end
      else split_from (cur ++ [c]) t
  end.

Definition split (s : str) : list str := split_from [] s.

(** [sep.join(words)] *)
Fixpoint join (sep : str) (words : list str) : str :=
  match words with
  | [] => []
  | [w] => w
  | w :: ws => w ++ sep ++ join sep ws
  end.

(** [s.startswith(p)] *)
Fixpoint startswith (p s : str) : bool :=
  match p, s with
  | [], _ => true
  | a :: p', b :: s' => (a =? b) && startswith p' s'
  | _ :: _, [] => false
  end.

(** [p in s] on strings: substring containment. *)
Fixpoint contains (p s : str) : bool :=
  startswith p s ||
  match s with
  | [] => false
  | _ :: t => contains p t
  end.

(** [s.split(sep, 1)] for a non-empty [sep]: the text before and after the
    first occurrence of [sep], or [None] when there is none (Python then
    returns the one-element list [[s]]). *)
Fixpoint split_once (sep s : str) : option (str * str) :=
  if startswith sep s then Some ([], drop (length sep) s)
  else match s with
       | [] => None
       | c :: t =>
           match split_once sep t with
           | Some (a, b) => Some (c :: a, b)
           | None => None
           end
       end.

(** [s.replace(old, new)] for one-character [old] and [new]. *)
Definition replace (old new : char) (s : str) : str :=
  (λ c, if c =? old then new else c) <$> s.

(** [sorted(xs)] on strings: ascending in the code-point order. *)
Definition str_le (a b : str) : Prop := lexico a b ∨ a = b.

#[global] Instance str_le_dec a b : Decision (str_le a b).
Proof. unfold str_le. apply _. Defined.

Definition sorted (xs : list str) : list str := merge_sort str_le xs.

End Py.

(** ** Library functions outside the repository

    The scripts call into CPython's Unicode database, [html], [unidecode] and
    [unicodedata]. Their tables are not part of the repository: they are the
    fields of [Externals], and every general theorem below holds for all of
    them. *)

Class Externals := {
  (** [c.isalnum()] for one character *)
  char_isalnum : char → bool;
  (** [s.lower()] *)
  lower : str → str;
  (** [s.capitalize()] *)
  capitalize : str → str;
  (** [html.unescape(s)] *)
  unescape : str → str;
  (** [unidecode(s)] *)
  unidecode : str → str;
  (** [unicodedata.normalize("NFD", s)] *)
  normalize_NFD : str → str;
  (** [unicodedata.category(c) == "Mn"] *)
  nonspacing_mark : char → bool;
}.

(** [w.isalnum()] on a string: at least one character, all alphanumeric. *)
Definition isalnum `{Externals} (w : str) : bool :=
  match w with
  | [] => false
  | _ => forallb char_isalnum w
  end.

Definition LT : char := 60.   (* "<" *)
Definition GT : char := 62.   (* ">" *)
Definition SPACE : char := 32.
Definition UNDERSCORE : char := 95.
Definition NL : str := [10].  (* "\n" *)

(** ** [re.sub(r"<[^>]+>", " ", s)] *)

Module Re.

(** The text up to the first [">"] and the text after it. *)
Fixpoint until_gt (s : str) : option (str * str) :=
  match s with
  | [] => None
  | c :: t =>
      if c =? GT then Some ([], t)
      else match until_gt t with
           | Some (m, r) => Some (c :: m, r)
           | None => None
           end
  end.

(** A match of [<[^>]+>] at the head of [s]: what follows the match. The
    class [[^>]+] cannot step over a [">"], so the match ends at the first
    [">"], and needs one character or more before it. *)
Definition match_tag (s : str) : option str :=
  match s with
  | c :: t =>
      if c =? LT
      then match until_gt t with
           | Some (_ :: _, rest) => Some rest
           | _ => None
           end
      else None
  | [] => None
  end.

(** The leftmost matches, none overlapping, each replaced by one space; the
    scan resumes after a match. [fuel] bounds the characters left to read. *)
Fixpoint sub_tags_from (fuel : nat) (s : str) : str :=
  match fuel with
  | O => s
  | S fuel' =>
      match s with
      | [] => []
      | c :: t =>
          match match_tag s with
          | Some rest => SPACE :: sub_tags_from fuel' rest
          | None => c :: sub_tags_from fuel' t
          end
      end
  end.

Definition sub_tags (s : str) : str := sub_tags_from (length s) s.

(** [re.search(r"<[^>]+>", s) is not None] *)
Fixpoint search_tag (s : str) : bool :=
  match match_tag s with
  | Some _ => true
  | None => match s with [] => false | _ :: t => search_tag t end
  end.

End Re.

(** ** Functions that are the same in both scripts *)

Section shared.
Context `{Externals}.

(** [cleanLabelText] *)
Definition cleanLabelText (rawText : option str) : str :=
  match rawText with
  | None => []
  | Some rawText =>
      let decoded := unescape rawText in
      let withoutTags := Py.strip (Re.sub_tags decoded) in
      withoutTags
  end.

(** One element of the list [parseIStarXml] returns: a dict with the keys
    ["type"], ["label"] and ["norm"]. *)
Record DiagramObject := {
  obj_type : str;
  obj_label : str;
  obj_norm : str;
}.

(** The dict [loadAllMappingFiles] returns: one table for each of its four
    keys. *)
Record Mappings := {
  algorithms : gmap str str;
  nfrs : gmap str str;
  backend : gmap str str;
  integration : gmap str str;
}.

(** [applyDefaultValues] *)
Definition applyDefaultValues (backs integrs : gset str)
    (mappingDictionaries : Mappings) : gset str * gset str :=
  let backendValues := (map_to_list (backend mappingDictionaries)).*2 in
  let integrationValues := (map_to_list (integration mappingDictionaries)).*2 in
  let backs :=
    if bool_decide (size backs = 0%nat) && bool_decide (py "Hardware" ∈ backendValues)
    then backs ∪ {[py "Hardware"]} else backs in
  let integrs :=
    if bool_decide (size integrs = 0%nat) && bool_decide (py "Middleware" ∈ integrationValues)
    then integrs ∪ {[py "Middleware"]} else integrs in
  (backs, integrs).

(** One inner loop of [mapIStarObjectsToFeatures]:
    [for keyword, feature in table.items(): if keyword in txt: found.add(feature)] *)
Definition scanTable (txt : str) (table : gmap str str) (found : gset str) : gset str :=
  foldl (λ found '(keyword, feature),
           if Py.contains keyword txt then found ∪ {[feature]} else found)
        found (map_to_list table).

(** The four sets after the loop over [objectList], before the defaults. *)
Definition scanObjects (objectList : list DiagramObject)
    (mappingDictionaries : Mappings) : gset str * gset str * gset str * gset str :=
  foldl (λ '(algos, nfrs_, backs, integrs) obj,
           let txt := obj_norm obj in
           let algos := scanTable txt (algorithms mappingDictionaries) algos in
           let nfrs_ := scanTable txt (nfrs mappingDictionaries) nfrs_ in
           let backs := scanTable txt (backend mappingDictionaries) backs in
           let integrs := scanTable txt (integration mappingDictionaries) integrs in
           (algos, nfrs_, backs, integrs))
        (∅, ∅, ∅, ∅) objectList.

(** [mapIStarObjectsToFeatures] *)
Definition mapIStarObjectsToFeatures (objectList : list DiagramObject)
    (mappingDictionaries : Mappings) : list str * list str * list str * list str :=
  let '(algos, nfrs_, backs, integrs) := scanObjects objectList mappingDictionaries in
  let '(backs, integrs) := applyDefaultValues backs integrs mappingDictionaries in
  (Py.sorted (elements algos), Py.sorted (elements nfrs_),
   Py.sorted (elements backs), Py.sorted (elements integrs)).

(** The list [lines] of [buildUvlModel] when it reaches its [return]. *)
Definition uvlLines (rootFeature : str) (algos nfrs_ backs integrs : list str) : list str :=
  let lines := [] in
  let lines := lines ++ [py "features {"] in
  let lines := lines ++ [py "  " ++ rootFeature ++ py " {"] in
  let lines :=
    if bool_decide (0 < length algos)%nat then
      let lines := lines ++ [py "    Algorithm {"] in
      let lines := foldl (λ lines algo, lines ++ [py "      " ++ algo]) lines algos in
      lines ++ [py "    }"]
    else lines in
  let lines :=
    if bool_decide (0 < length backs)%nat then
      let lines := lines ++ [py "    Backend {"] in
      let lines := foldl (λ lines back, lines ++ [py "      " ++ back]) lines backs in
      lines ++ [py "    }"]
    else lines in
  let lines :=
    if bool_decide (0 < length integrs)%nat then
      let lines := lines ++ [py "    IntegrationModel {"] in
      let lines := foldl (λ lines integr, lines ++ [py "      " ++ integr]) lines integrs in
      lines ++ [py "    }"]
    else lines in
  let lines := foldl (λ lines n, lines ++ [py "    " ++ n]) lines nfrs_ in
  let lines := lines ++ [py "  }"] in
  let lines := lines ++ [py "}"] in
  let lines := lines ++ [py ""] in
  let lines :=
    if bool_decide (0 < length algos)%nat && bool_decide (py "Precision" ∈ nfrs_) then
      let lines := lines ++ [py "constraints {"] in
      let lines := foldl (λ lines algo, lines ++ [py "  " ++ algo ++ py " requires Precision"])
                         lines algos in
      lines ++ [py "}"]
    else lines in
  lines.

(** [buildUvlModel] *)
Definition buildUvlModel (rootFeature : str) (algos nfrs_ backs integrs : list str) : str :=
  Py.join NL (uvlLines rootFeature algos nfrs_ backs integrs).

(** One [<object>] element of the parsed XML tree, as [parseIStarXml] reads it:
    its [label] and [type] attributes, [None] for an attribute that is absent.
    The tree is the list of these elements in document order, as the query
    for [object] elements returns them. *)
Record Element := {
  elem_label : option str;
  elem_type : option str;
}.

(** The loop of [generateUvlFromIStarXml] that looks for the root label: the
    label of the first object with [obj["type"] == "goal"] and
    [obj["label"].strip() != ""], or [None] when the loop ends without
    [break]. *)
Fixpoint firstGoalLabel (objectList : list DiagramObject) : option str :=
  match objectList with
  | [] => None
  | obj :: rest =>
      if bool_decide (obj_type obj = py "goal")
         && negb (bool_decide (Py.strip (obj_label obj) = []))
      then Some (obj_label obj)
      else firstGoalLabel rest
  end.

End shared.

(** What a run of [generateUvlFromIStarXml] ends with: the text written to the
    output file, an exception of the loading, or the [UnboundLocalError] of
    reading a local variable that was never assigned. *)
Inductive failure := Raised (e : exn) | UnboundLocalError.

Inductive outcome :=
| Written (uvlContent : str)
| Failed (f : failure).

(** A configuration directory: the lines of each file that exists, by path
    (iterating an open text file yields its lines). *)
Abbreviation files := (gmap str (list str)) (only parsing).

(** The four categories. *)
Definition categories : list str :=
  [py "algorithms"; py "nfrs"; py "backend"; py "integration"].

(** [f"{configDirectory}/{category}.txt"] *)
Definition mappingPath (configDirectory category : str) : str :=
  configDirectory ++ py "/" ++ category ++ py ".txt".

(** ** [src/iStar-UVL.py] *)

Module V1.
Section defs.
Context `{Externals}.

(** [normalizeText] *)
Definition normalizeText (inputText : option str) : str :=
  match inputText with
  | None => []
  | Some inputText =>
      let lowerCaseText := lower (Py.strip inputText) in
      let textWithoutAccents := unidecode lowerCaseText in
      let words := Py.split textWithoutAccents in
      let cleanedText := Py.join (py " ") words in
      cleanedText
  end.

(** [formatRootFeatureName] *)
Definition formatRootFeatureName (inputText : option str) : str :=
  match inputText with
  | None | Some [] => py "RootGoal"
  | Some inputText =>
      let cleaned := cleanLabelText (Some inputText) in
      let normalized := normalizeText (Some cleaned) in
      let words := Py.split (Py.replace UNDERSCORE SPACE normalized) in
      let capitalizedWords :=
        foldl (λ capitalizedWords word,
                 if isalnum word then capitalizedWords ++ [capitalize word]
                 else capitalizedWords)
              [] words in
      let identifier := Py.join [] capitalizedWords in
      match identifier with
      | [] => py "RootGoal"
      | _ => identifier
      end
  end.

(** The body of the loop of [loadMappingFile] for one [line]. *)
Definition readLine (mapping : gmap str str) (line : str) : result (gmap str str) :=
  let cleanedLine := Py.strip line in
  (* [cleanedLine is None] never holds: [strip] returns a string *)
  if negb (Py.contains (py "=>") cleanedLine) then Ok mapping
  else match Py.split_once (py "=>") cleanedLine with
       | Some (keyPart, featurePart) =>
           let normalizedKey := normalizeText (Some keyPart) in
           let normalizedFeature := Py.strip featurePart in
           Ok (<[normalizedKey := normalizedFeature]> mapping)
       | None => Raise ValueError
       end.

Fixpoint readLines (mapping : gmap str str) (lines : list str) : result (gmap str str) :=
  match lines with
  | [] => Ok mapping
  | line :: rest => mapping ← readLine mapping line; readLines mapping rest
  end.

(** [loadMappingFile]: [open] raises when the file does not exist. *)
Definition loadMappingFile (fs : files) (filePath : str) : result (gmap str str) :=
  match fs !! filePath with
  | None => Raise FileNotFoundError
  | Some lines => readLines ∅ lines
  end.

(** [loadAllMappingFiles]: the loop over the four categories, in its order. *)
Definition loadAllMappingFiles (fs : files) (configDirectory : str) : result Mappings :=
  a ← loadMappingFile fs (mappingPath configDirectory (py "algorithms"));
  n ← loadMappingFile fs (mappingPath configDirectory (py "nfrs"));
  b ← loadMappingFile fs (mappingPath configDirectory (py "backend"));
  i ← loadMappingFile fs (mappingPath configDirectory (py "integration"));
  Ok {| algorithms := a; nfrs := n; backend := b; integration := i |}.

(** [parseIStarXml], from the elements the query returns. *)
Definition parseIStarXml (elements : list Element) : list DiagramObject :=
  foldl (λ result obj,
           let rawLabel := default [] (elem_label obj) in
           let label := cleanLabelText (Some rawLabel) in
           let rawType := default [] (elem_type obj) in
           let typeText := match rawType with [] => [] | _ => lower rawType end in
           let normalizedLabel := normalizeText (Some label) in
           let objData :=
             {| obj_type := typeText; obj_label := label; obj_norm := normalizedLabel |} in
           result ++ [objData])
        [] elements.

(** [generateUvlFromIStarXml]: [rootLabel] is assigned only inside the loop. *)
Definition generateUvlFromIStarXml (fs : files) (elements : list Element)
    (configDirectory : str) : outcome :=
  match loadAllMappingFiles fs configDirectory with
  | Raise e => Failed (Raised e)
  | Ok mappingDictionaries =>
      let objectList := parseIStarXml elements in
      match firstGoalLabel objectList with
      | None => Failed UnboundLocalError
      | Some rootLabel =>
          let rootFeature := formatRootFeatureName (Some rootLabel) in
          let '(algos, nfrs_, backs, integrs) :=
            mapIStarObjectsToFeatures objectList mappingDictionaries in
          let uvlContent := buildUvlModel rootFeature algos nfrs_ backs integrs in
          Written uvlContent
      end
  end.

End defs.
End V1.

(** ** [src/istar-uvl.py] *)

Module V2.
Section defs.
Context `{Externals}.

(** [normalizeText] *)
Definition normalizeText (inputText : option str) : str :=
  match inputText with
  | None => []
  | Some inputText =>
      let lowerCaseText := lower (Py.strip inputText) in
      let decomposedText := normalize_NFD lowerCaseText in
      let charactersWithoutAccents :=
        foldl (λ charactersWithoutAccents character,
                 if negb (nonspacing_mark character)
                 then charactersWithoutAccents ++ [[character]]
                 else charactersWithoutAccents)
              [] decomposedText in
      let textWithoutAccents := Py.join [] charactersWithoutAccents in
      let cleanedText := Py.join (py " ") (Py.split textWithoutAccents) in
      cleanedText
  end.

(** [convertTextToUvlIdentifier] *)
Definition convertTextToUvlIdentifier (inputText : option str) : str :=
  match inputText with
  | None => py "RootGoal"
  | Some inputText =>
      let cleanedCharacters :=
        foldl (λ cleanedCharacters character,
                 if char_isalnum character
                    || bool_decide (character ∈ [SPACE; UNDERSCORE])
                 then cleanedCharacters ++ [[character]]
                 else cleanedCharacters ++ [py " "])
              [] inputText in
      let joinedText := Py.join [] cleanedCharacters in
      let separatedText := Py.replace UNDERSCORE SPACE joinedText in
      let splitWords := Py.split separatedText in
      let words :=
        foldl (λ words word,
                 if isalnum word then
                   let capitalizedWord := capitalize word in
                   words ++ [capitalizedWord]
                 else words)
              [] splitWords in
      if bool_decide (length words = 0%nat) then py "RootGoal"
      else
        let finalIdentifier := Py.join [] words in
        finalIdentifier
  end.

(** The body of the loop of [loadMappingFile] for one [line]. *)
Definition readLine (mappingDictionary : gmap str str) (line : str)
    : result (gmap str str) :=
  let cleanedLine := Py.strip line in
  if bool_decide (cleanedLine = [])
     || Py.startswith (py "#") cleanedLine
     || negb (Py.contains (py "=>") cleanedLine)
  then Ok mappingDictionary
  else match Py.split_once (py "=>") line with
       | Some (keyPart, featurePart) =>
           let normalizedKey := normalizeText (Some keyPart) in
           Ok (<[normalizedKey := Py.strip featurePart]> mappingDictionary)
       | None => Raise ValueError
       end.

Fixpoint readLines (mappingDictionary : gmap str str) (lines : list str)
    : result (gmap str str) :=
  match lines with
  | [] => Ok mappingDictionary
  | line :: rest =>
      mappingDictionary ← readLine mappingDictionary line;
      readLines mappingDictionary rest
  end.

(** [loadMappingFile]: [except FileNotFoundError: pass] keeps the empty dict. *)
Definition loadMappingFile (fs : files) (filePath : str) : result (gmap str str) :=
  match fs !! filePath with
  | None => Ok ∅
  | Some lines => readLines ∅ lines
  end.

(** [loadAllMappingFiles] *)
Definition loadAllMappingFiles (fs : files) (configDirectory : str) : result Mappings :=
  a ← loadMappingFile fs (mappingPath configDirectory (py "algorithms"));
  n ← loadMappingFile fs (mappingPath configDirectory (py "nfrs"));
  b ← loadMappingFile fs (mappingPath configDirectory (py "backend"));
  i ← loadMappingFile fs (mappingPath configDirectory (py "integration"));
  Ok {| algorithms := a; nfrs := n; backend := b; integration := i |}.

(** [parseIStarXml], from the elements the query returns. *)
Definition parseIStarXml (elements : list Element) : list DiagramObject :=
  foldl (λ parsedObjects obj,
           let rawLabel := default [] (elem_label obj) in
           let labelText := cleanLabelText (Some rawLabel) in
           let typeText := lower (default [] (elem_type obj)) in
           let normalizedLabel := normalizeText (Some labelText) in
           parsedObjects ++
             [{| obj_type := typeText; obj_label := labelText;
                 obj_norm := normalizedLabel |}])
        [] elements.

(** [generateUvlFromIStarXml]: [rootLabel] starts as ["Protein Folding"]. *)
Definition generateUvlFromIStarXml (fs : files) (elements : list Element)
    (configDirectory : str) : outcome :=
  match loadAllMappingFiles fs configDirectory with
  | Raise e => Failed (Raised e)
  | Ok mappingDictionaries =>
      let objectList := parseIStarXml elements in
      let rootLabel := default (py "Protein Folding") (firstGoalLabel objectList) in
      let rootFeature := convertTextToUvlIdentifier (Some rootLabel) in
      let '(algos, nfrs_, backs, integrs) :=
        mapIStarObjectsToFeatures objectList mappingDictionaries in
      let uvlContent := buildUvlModel rootFeature algos nfrs_ backs integrs in
      Written uvlContent
  end.

End defs.
End V2.

(** ** A concrete instance of the library functions

    The examples and counterexamples run on [sample]. It agrees with CPython 3
    and [html.unescape] on ASCII text that holds no ["&"]; with Unidecode on
    ASCII text and on the ideographs U+5317 and U+4EB0; with [str.isalnum],
    [str.lower], [str.capitalize], [unicodedata.normalize] and
    [unicodedata.category] on text made of ASCII, these two ideographs and the
    marks U+034F, U+1D165 and U+1D16D. *)

Module Sample.

Definition is_upper (c : char) : bool := (65 <=? c) && (c <=? 90).
Definition is_lower (c : char) : bool := (97 <=? c) && (c <=? 122).
Definition is_digit (c : char) : bool := (48 <=? c) && (c <=? 57).

Definition char_lower (c : char) : char := if is_upper c then c + 32 else c.
Definition char_upper (c : char) : char := if is_lower c then c - 32 else c.

(** Unidecode's table: the identity on ASCII, and its documented example
    [unidecode("北亰") == "Bei Jing "]. *)
Definition translit (c : char) : str :=
  if c <? 128 then [c]
  else if c =? 0x5317 then py "Bei "
  else if c =? 0x4EB0 then py "Jing "
  else [].

(** Canonical combining classes: U+1D165 MUSICAL SYMBOL COMBINING STEM (Mc)
    has 216, U+1D16D MUSICAL SYMBOL COMBINING AUGMENTATION DOT (Mc) has 226;
    ASCII and U+034F COMBINING GRAPHEME JOINER (Mn) have 0. *)
Definition ccc (c : char) : N :=
  if c =? 0x1D165 then 216 else if c =? 0x1D16D then 226 else 0.

(** Canonical ordering: a mark moves left over the marks of a greater class,
    never over a character of class 0. *)
Fixpoint place (c : char) (done : str) : str :=
  match done with
  | d :: done' =>
      if (0 <? ccc c) && (ccc c <? ccc d) then d :: place c done' else c :: done
  | [] => [c]
  end.

Definition reorder (s : str) : str := rev (foldl (λ done c, place c done) [] s).

#[global] Instance sample : Externals := {|
  char_isalnum c :=
    is_digit c || is_upper c || is_lower c || (c =? 0x5317) || (c =? 0x4EB0);
  lower s := char_lower <$> s;
  capitalize s :=
    match s with
    | [] => []
    | c :: t => char_upper c :: (char_lower <$> t)
    end;
  unescape s := s;
  unidecode s := s ≫= translit;
  normalize_NFD s := reorder s;
  nonspacing_mark c := (0x300 <=? c) && (c <=? 0x36F);
|}.

(** A small diagram and a configuration directory, for whole runs. *)

Definition run_elements : list Element :=
  [ {| elem_label := Some (py "<div>Protein Folding</div>"); elem_type := None |};
    {| elem_label := Some (py "<b>Fold</b> proteins"); elem_type := Some (py "Goal") |};
    {| elem_label := Some (py "Uses  AES on the GPU"); elem_type := Some (py "task") |};
    {| elem_label := None; elem_type := Some (py "goal") |} ].

Definition run_files : files :=
  {[ py "config/algorithms.txt" := [py "# algorithms"; py "aes => AES"; py "rsa => RSA"];
     py "config/nfrs.txt" := [py "fold => Precision"];
     py "config/backend.txt" := [py "gpu => Hardware"];
     py "config/integration.txt" := [] ]}.

End Sample.


(** ** The specification's wording, for comparison with the code *)

Module Spec.
Section defs.
Context `{Externals}.

(** [p] occurs in [s] as a substring. *)
Definition substring (p s : str) : Prop := ∃ a b, s = a ++ p ++ b.

(** The tag pattern: ["<"], one or more characters other than [">"], [">"]. *)
Definition tag (m : str) : Prop :=
  ∃ body, m = LT :: body ++ [GT] ∧ body ≠ [] ∧ GT ∉ body.

(** Some (keyword, feature) pair of [table] has its keyword occurring in the
    [normalizedLabel] of some object. *)
Definition triggered (objects : list DiagramObject) (table : gmap str str)
    (feature : str) : Prop :=
  ∃ keyword obj,
    table !! keyword = Some feature ∧ obj ∈ objects ∧ substring keyword (obj_norm obj).

(** [feature] is among the feature values of [table]. *)
Definition declares (table : gmap str str) (feature : str) : Prop :=
  ∃ keyword, table !! keyword = Some feature.

(** Lexicographically sorted, no repeated name. *)
Definition sorted_unique (l : list str) : Prop := Sorted Py.str_le l ∧ NoDup l.

(** [toIdentifier] of section 4.3, step by step. *)
Definition toIdentifier (text : option str) : str :=
  match text with
  | None | Some [] => py "RootGoal"
  | Some text =>
      let sanitized :=
        (λ c, if char_isalnum c || (c =? SPACE) || (c =? UNDERSCORE) then c else SPACE)
          <$> text in
      let spaced := (λ c, if c =? UNDERSCORE then SPACE else c) <$> sanitized in
      let kept := filter (λ w, isalnum w = true) (Py.split spaced) in
      match kept with
      | [] => py "RootGoal"
      | _ => concat (capitalize <$> kept)
      end
  end.

(** What [formatRootFeatureName] of [src/iStar-UVL.py] does instead: the words
    are those of the sanitized, normalized text; punctuation is not replaced. *)
Definition toIdentifierNormalized (normalize : option str → str) (text : option str) : str :=
  match text with
  | None | Some [] => py "RootGoal"
  | Some text =>
      let spaced := (λ c, if c =? UNDERSCORE then SPACE else c)
                      <$> normalize (Some (cleanLabelText (Some text))) in
      let kept := filter (λ w, isalnum w = true) (Py.split spaced) in
      match concat (capitalize <$> kept) with
      | [] => py "RootGoal"
      | identifier => identifier
      end
  end.

(** A word of [split]: not empty, no whitespace. *)
Definition word (w : str) : Prop := w ≠ [] ∧ Forall (λ c, Py.isspace c = false) w.

(** A blank line; a comment line (its stripped form starts with ["#"]); a
    line that holds the delimiter. *)
Definition blank (line : str) : Prop := Forall (λ c, Py.isspace c = true) line.
Definition comment (line : str) : Prop := Py.startswith (py "#") (Py.strip line) = true.
Definition delimited (line : str) : Prop := Py.contains (py "=>") line = true.

(** The lines that produce an entry. *)
Definition accepted (line : str) : Prop :=
  delimited line ∧ ¬ blank line ∧ ¬ comment line.

#[global] Instance delimited_dec line : Decision (delimited line).
Proof. unfold delimited. apply _. Defined.
#[global] Instance accepted_dec line : Decision (accepted line).
Proof. unfold accepted, blank, comment. apply _. Defined.

(** A line of the form [key => FeatureName]: its key part and feature part. *)
Definition keyFeature (line : str) : option (str * str) := Py.split_once (py "=>") line.

(** The entry of a line: its key part normalized, its feature part trimmed. *)
Definition entry (normalize : option str → str) (line : str) : option (str * str) :=
  '(keyPart, featurePart) ← keyFeature line;
  Some (normalize (Some keyPart), Py.strip featurePart).

(** The table of a list of entries, read in order: a later entry replaces an
    earlier one with the same key. *)
Definition extend (m : gmap str str) (entries : list (str * str)) : gmap str str :=
  foldl (λ m '(k, v), <[k := v]> m) m entries.
Definition table (entries : list (str * str)) : gmap str str := extend ∅ entries.

(** Two spaces for each nesting level. *)
Definition indent (level : nat) (text : str) : str := repeat SPACE (2 * level) ++ text.

Definition group (name : str) (features : list str) : list str :=
  match features with
  | [] => []
  | _ => [indent 2 (name ++ py " {")] ++ (indent 3 <$> features) ++ [indent 2 (py "}")]
  end.

(** The [features] block, its closing brace and the blank line after it. *)
Definition featuresBlock (root : str) (algos nfrs_ backs integrs : list str) : list str :=
  [indent 0 (py "features {"); indent 1 (root ++ py " {")]
  ++ group (py "Algorithm") algos
  ++ group (py "Backend") backs
  ++ group (py "IntegrationModel") integrs
  ++ (indent 2 <$> nfrs_)
  ++ [indent 1 (py "}"); indent 0 (py "}"); []].

(** The [constraints] block: one [requires] line for each algorithm. *)
Definition constraintsBlock (algos : list str) : list str :=
  [indent 0 (py "constraints {")]
  ++ ((λ algo, indent 1 (algo ++ py " requires Precision")) <$> algos)
  ++ [indent 0 (py "}")].

(** The condition under which the block is appended. *)
Definition constrained (algos nfrs_ : list str) : Prop :=
  algos ≠ [] ∧ py "Precision" ∈ nfrs_.

Definition endswith (suffix text : str) : Prop := ∃ body, text = body ++ suffix.

(** An object that can give the root label: a goal whose label is not blank. *)
Definition rootGoal (obj : DiagramObject) : Prop :=
  obj_type obj = py "goal" ∧ Py.strip (obj_label obj) ≠ [].

(** [text] holds a match of the tag pattern. *)
Definition tagged (text : str) : Prop := ∃ a m b, text = a ++ m ++ b ∧ tag m.

(** Every whitespace character of [text] is one space that stands between two
    characters that are not whitespace. *)
Definition single_spaced (text : str) : Prop :=
  ∀ a c b, text = a ++ c :: b → Py.isspace c = true →
    c = SPACE
    ∧ (∃ a' x, a = a' ++ [x] ∧ Py.isspace x = false)
    ∧ (∃ y b', b = y :: b' ∧ Py.isspace y = false).

(** What the first two steps of [convertTextToUvlIdentifier] make of one
    character. *)
Definition separated (c : char) : char :=
  let kept := if char_isalnum c || (c =? SPACE) || (c =? UNDERSCORE) then c else SPACE in
  if kept =? UNDERSCORE then SPACE else kept.

(** Nothing of [objects] triggers a feature of [table]. *)
Definition silent (objects : list DiagramObject) (table : gmap str str) : Prop :=
  ∀ feature, ¬ triggered objects table feature.

End defs.
End Spec.

(** * Properties *)

(** ** Strings *)

Section strings.
Implicit Types (p s t : str) (c : char).

Lemma startswith_spec p s : Py.startswith p s = true ↔ ∃ b, s = p ++ b.
Proof.
  revert s. induction p as [|a p IH]; intros [|c s]; simpl.
  - split; [by exists []|done].
  - split; [by eexists|done].
  - split; [done|by intros [b Hb]].
  - rewrite andb_true_iff, N.eqb_eq, IH. split.
    + intros [-> [b ->]]. by exists b.
    + intros [b Hb]. simplify_eq. eauto.
Qed.

Lemma contains_spec p s : Py.contains p s = true ↔ Spec.substring p s.
Proof.
  unfold Spec.substring. induction s as [|c s IH].
  - simpl. rewrite orb_false_r, startswith_spec. split.
    + intros [b Hb]. by exists [], b.
    + intros ([|??] & b & Hb); [by exists b|done].
  - cbn [Py.contains]. rewrite orb_true_iff, startswith_spec, IH. split.
    + intros [[b ->]|(a & b & ->)]; [by exists [], b|by exists (c :: a), b].
    + intros ([|c' a] & b & Hb); simplify_eq/=; [left|right]; eauto.
Qed.

Lemma substring_app_l a p s : Spec.substring p s → Spec.substring p (a ++ s).
Proof. intros (x & y & ->). exists (a ++ x), y. by rewrite <-app_assoc. Qed.

Lemma substring_app_r b p s : Spec.substring p s → Spec.substring p (s ++ b).
Proof. intros (x & y & ->). exists x, (y ++ b). by rewrite <-!app_assoc. Qed.

Lemma substring_rev p s : Spec.substring p s → Spec.substring (rev p) (rev s).
Proof.
  intros (x & y & ->). exists (rev y), (rev x).
  by rewrite !rev_app_distr, <-app_assoc.
Qed.

(** [lstrip] drops a prefix of whitespace, and all of it. *)
Lemma lstrip_spec s :
  ∃ a, s = a ++ Py.lstrip s ∧ Forall (λ c, Py.isspace c = true) a.
Proof.
  induction s as [|c s (a & Hs & Ha)]; simpl.
  - by exists [].
  - destruct (Py.isspace c) eqn:Hc.
    + exists (c :: a). split; [by rewrite Hs at 1|by constructor].
    + by exists [].
Qed.

Lemma lstrip_head s c t : Py.lstrip s = c :: t → Py.isspace c = false.
Proof.
  induction s as [|c' s IH]; simpl; [done|].
  destruct (Py.isspace c') eqn:Hc; [done|]. by intros [= <- <-].
Qed.

Lemma lstrip_fixed c t : Py.isspace c = false → Py.lstrip (c :: t) = c :: t.
Proof. intros Hc. simpl. by rewrite Hc. Qed.

Lemma lstrip_idemp s : Py.lstrip (Py.lstrip s) = Py.lstrip s.
Proof.
  destruct (Py.lstrip s) as [|c t] eqn:Hs; [done|].
  apply lstrip_fixed. eapply lstrip_head, Hs.
Qed.

Lemma rstrip_spec s :
  ∃ b, s = Py.rstrip s ++ b ∧ Forall (λ c, Py.isspace c = true) b.
Proof.
  unfold Py.rstrip. destruct (lstrip_spec (rev s)) as (a & Hs & Ha).
  exists (rev a). split.
  - rewrite <-rev_app_distr, <-Hs. by rewrite rev_involutive.
  - by apply Forall_rev.
Qed.

(** [strip] keeps the text between a whitespace prefix and a whitespace
    suffix. *)
Lemma strip_spec s :
  ∃ a b, s = a ++ Py.strip s ++ b
         ∧ Forall (λ c, Py.isspace c = true) a ∧ Forall (λ c, Py.isspace c = true) b.
Proof.
  unfold Py.strip. destruct (lstrip_spec s) as (a & Hs & Ha).
  destruct (rstrip_spec (Py.lstrip s)) as (b & Hl & Hb).
  exists a, b. split_and!; [|done..]. by rewrite <-Hl.
Qed.

Lemma substring_strip p s : Spec.substring p (Py.strip s) → Spec.substring p s.
Proof.
  intros Hp. destruct (strip_spec s) as (a & b & Hs & _). rewrite Hs.
  by apply substring_app_l, substring_app_r.
Qed.

(** A pattern that starts with a character other than whitespace is not
    found earlier for a whitespace prefix. *)
Lemma contains_skip_spaces c0 p a s :
  Py.isspace c0 = false → Forall (λ c, Py.isspace c = true) a →
  Py.contains (c0 :: p) (a ++ s) = Py.contains (c0 :: p) s.
Proof.
  intros Hp. induction 1 as [|c a Hc _ IH]; [done|].
  cbn [app Py.contains Py.startswith]. rewrite IH.
  destruct (c0 =? c) eqn:Heq; [|done].
  apply N.eqb_eq in Heq. congruence.
Qed.

Lemma contains_lstrip c0 p s :
  Py.isspace c0 = false →
  Py.contains (c0 :: p) (Py.lstrip s) = Py.contains (c0 :: p) s.
Proof.
  intros Hp. destruct (lstrip_spec s) as (a & Hs & Ha).
  rewrite Hs at 2. by rewrite contains_skip_spaces.
Qed.

Lemma contains_rev p s : Py.contains (rev p) (rev s) = Py.contains p s.
Proof.
  apply eq_true_iff_eq. rewrite !contains_spec. split.
  - intros Hr. apply substring_rev in Hr. by rewrite !rev_involutive in Hr.
  - apply substring_rev.
Qed.

(** The delimiter has no whitespace: stripping a line neither hides nor
    reveals it. *)
Lemma contains_arrow_strip s :
  Py.contains (py "=>") (Py.strip s) = Py.contains (py "=>") s.
Proof.
  unfold Py.strip, Py.rstrip.
  rewrite <-(contains_rev _ (rev _)), rev_involutive.
  change (rev (py "=>")) with [GT; 61].
  rewrite contains_lstrip by done.
  change [GT; 61] with (rev (py "=>")).
  rewrite contains_rev. by apply contains_lstrip.
Qed.

End strings.

(** ** The tag pattern *)

Section tags.
Implicit Types (s t m rest : str) (c : char).

Lemma until_gt_app m rest :
  GT ∉ m → Re.until_gt (m ++ GT :: rest) = Some (m, rest).
Proof.
  induction m as [|c m IH]; [done|]. intros [Hc Hm]%not_elem_of_cons.
  simpl. rewrite IH by done. apply N.eqb_neq in Hc. by rewrite N.eqb_sym, Hc.
Qed.

Lemma until_gt_inv s m rest :
  Re.until_gt s = Some (m, rest) → s = m ++ GT :: rest ∧ GT ∉ m.
Proof.
  revert m. induction s as [|c s IH]; intros m Hs; simpl in Hs; [done|].
  destruct (c =? GT) eqn:Hc.
  - apply N.eqb_eq in Hc as ->. injection Hs as <- <-.
    split; [done|]. apply not_elem_of_nil.
  - apply N.eqb_neq in Hc.
    destruct (Re.until_gt s) as [[m' r']|] eqn:Hu; [|done].
    injection Hs as <- <-. destruct (IH m' eq_refl) as [-> Hm].
    split; [done|]. by intros [?|?]%elem_of_cons.
Qed.

Lemma until_gt_Some s m rest :
  Re.until_gt s = Some (m, rest) ↔ s = m ++ GT :: rest ∧ GT ∉ m.
Proof.
  split; [apply until_gt_inv|]. intros [-> Hm]. by apply until_gt_app.
Qed.

Lemma until_gt_None s : Re.until_gt s = None ↔ GT ∉ s.
Proof.
  induction s as [|c s IH]; simpl.
  - split; [intros _; apply not_elem_of_nil|done].
  - destruct (c =? GT) eqn:Hc.
    + apply N.eqb_eq in Hc as ->. split; [done|]. intros []. left.
    + apply N.eqb_neq in Hc. rewrite not_elem_of_cons, <-IH.
      destruct (Re.until_gt s) as [[??]|]; split; (done || by intros [_ ?]).
Qed.

(** [match_tag] finds exactly the matches of the pattern at the head. *)
Lemma match_tag_Some s rest :
  Re.match_tag s = Some rest ↔ ∃ m, s = m ++ rest ∧ Spec.tag m.
Proof.
  unfold Spec.tag. destruct s as [|c s]; simpl.
  { split; [done|]. intros (m & Hs & body & -> & _). done. }
  destruct (c =? LT) eqn:Hc.
  - apply N.eqb_eq in Hc as ->.
    destruct (Re.until_gt s) as [[body r]|] eqn:Hu.
    + apply until_gt_Some in Hu as [-> Hbody]. split.
      * destruct body as [|b body]; [done|]. intros [= <-].
        exists (LT :: (b :: body) ++ [GT]). split.
        -- simpl. by rewrite <-app_assoc.
        -- by exists (b :: body).
      * intros (m & Hs & body' & -> & Hne & Hgt).
        simpl in Hs. rewrite <-app_assoc in Hs. injection Hs as Hs.
        pose proof (until_gt_app body r Hbody) as Hu.
        rewrite Hs in Hu. simpl in Hu. rewrite until_gt_app in Hu by done.
        injection Hu as <- <-. by destruct body'.
    + split; [done|]. intros (m & Hs & body' & -> & Hne & Hgt).
      simpl in Hs. rewrite <-app_assoc in Hs. injection Hs as ->.
      apply until_gt_None in Hu. exfalso. apply Hu. set_solver.
  - apply N.eqb_neq in Hc. split; [done|].
    intros (m & Hs & body' & -> & _). by simplify_eq/=.
Qed.

Lemma match_tag_shorter s rest :
  Re.match_tag s = Some rest → (length rest < length s)%nat ∧ (GT ∈ rest → GT ∈ s).
Proof.
  intros (m & -> & body & -> & _)%match_tag_Some. split.
  - rewrite length_app. simpl. lia.
  - set_solver.
Qed.

(** More fuel than characters changes nothing. *)
Lemma sub_tags_from_enough n s :
  (length s ≤ n)%nat → Re.sub_tags_from n s = Re.sub_tags s.
Proof.
  unfold Re.sub_tags. remember (length s) as k eqn:Hk.
  revert s n Hk. induction k as [k IH] using lt_wf_ind. intros s n -> Hn.
  destruct s as [|c t]; [by destruct n|].
  destruct n as [|n]; [simpl in Hn; lia|].
  cbn [length Re.sub_tags_from].
  destruct (Re.match_tag (c :: t)) as [rest|] eqn:Hm.
  - apply match_tag_shorter in Hm as [Hlen _]. simpl in *.
    rewrite (IH (length rest)) by (done || lia).
    by rewrite (IH (length rest) ltac:(lia) rest (length t)) by (done || lia).
  - simpl in Hn. f_equal. apply (IH (length t)); simpl; (done || lia).
Qed.

(** The equation of the scan. *)
Lemma sub_tags_cons c t :
  Re.sub_tags (c :: t) =
    match Re.match_tag (c :: t) with
    | Some rest => SPACE :: Re.sub_tags rest
    | None => c :: Re.sub_tags t
    end.
Proof.
  unfold Re.sub_tags at 1. cbn [length Re.sub_tags_from].
  destruct (Re.match_tag (c :: t)) as [rest|] eqn:Hm.
  - apply match_tag_shorter in Hm as [Hlen _]. simpl in Hlen.
    by rewrite sub_tags_from_enough by lia.
  - done.
Qed.

Lemma sub_tags_no_gt s : GT ∉ s → GT ∉ Re.sub_tags s.
Proof.
  remember (length s) as k eqn:Hk.
  revert s Hk. induction k as [k IH] using lt_wf_ind. intros s -> Hs.
  destruct s as [|c t]; [done|]. rewrite sub_tags_cons.
  destruct (Re.match_tag (c :: t)) as [rest|] eqn:Hm.
  - apply match_tag_shorter in Hm as [Hlen Hin].
    apply not_elem_of_cons. split; [done|].
    apply (IH (length rest)); [done..|]. naive_solver.
  - apply not_elem_of_cons in Hs as [Hc Ht].
    apply not_elem_of_cons. split; [done|].
    apply (IH (length t)); simpl; (done || lia).
Qed.

(** [search_tag] finds a match anywhere in the text. *)
Lemma search_tag_true s :
  Re.search_tag s = true ↔ ∃ a m b, s = a ++ m ++ b ∧ Spec.tag m.
Proof.
  induction s as [|c s IH].
  - simpl. split; [done|]. intros (a & m & b & Hs & body & -> & _).
    by destruct a.
  - cbn [Re.search_tag]. destruct (Re.match_tag (c :: s)) as [rest|] eqn:Hm.
    + split; [intros _|done]. apply match_tag_Some in Hm as (m & Hs & Htag).
      by exists [], m, rest.
    + rewrite IH. split.
      * intros (a & m & b & -> & Htag). by exists (c :: a), m, b.
      * intros ([|c' a] & m & b & Hs & Htag).
        -- assert (Re.match_tag (c :: s) = Some b) as Hm'
             by (apply match_tag_Some; eauto).
           congruence.
        -- injection Hs as -> ->. by exists a, m, b.
Qed.

(** One pass leaves no match behind. *)
Lemma search_tag_sub_tags s : Re.search_tag (Re.sub_tags s) = false.
Proof.
  remember (length s) as k eqn:Hk.
  revert s Hk. induction k as [k IH] using lt_wf_ind. intros s ->.
  destruct s as [|c t]; [done|]. rewrite sub_tags_cons.
  destruct (Re.match_tag (c :: t)) as [rest|] eqn:Hm.
  - apply match_tag_shorter in Hm as [Hlen _].
    cbn [Re.search_tag Re.match_tag]. change (SPACE =? LT) with false.
    by apply (IH (length rest)).
  - cbn [Re.search_tag].
    assert (Re.match_tag (c :: Re.sub_tags t) = None) as ->.
    { simpl in *. destruct (c =? LT); [|done].
      destruct (Re.until_gt t) as [[[|b body] r]|] eqn:Hu.
      - apply until_gt_Some in Hu as [-> _]. rewrite app_nil_l, sub_tags_cons.
        simpl. by change (GT =? LT) with false.
      - done.
      - apply until_gt_None, sub_tags_no_gt, until_gt_None in Hu.
        by rewrite Hu. }
    apply (IH (length t)); simpl; (done || lia).
Qed.

End tags.

(** C7. For every input, the text [cleanLabelText] returns has no substring
    that matches the tag pattern ["<"], one or more characters other than
    [">"], [">"]: the single pass of [re.sub] leaves no tag-shaped text behind,
    whatever [html.unescape] produced, also for malformed or nested markup. *)
Theorem cleanLabelText_leaves_no_tag `{Externals} (rawText : option str) :
  ¬ ∃ a m b, cleanLabelText rawText = a ++ m ++ b ∧ Spec.tag m.
Proof.
  intros (a & m & b & Heq & Htag). destruct rawText as [rawText|]; simpl in Heq.
  - destruct (strip_spec (Re.sub_tags (unescape rawText))) as (a' & b' & Hs & _).
    rewrite Heq in Hs.
    assert (Re.search_tag (Re.sub_tags (unescape rawText)) = true) as Hfound.
    { apply search_tag_true. exists (a' ++ a), m, (b ++ b'). split; [|done].
      rewrite Hs. by rewrite <-!app_assoc. }
    by rewrite search_tag_sub_tags in Hfound.
  - destruct Htag as (body & -> & _). by destruct a.
Qed.

Example cleanLabelText_nested :
  cleanLabelText (Some (py " <b>fast</b> <<i>> a<>b ")) = py "fast   > a<>b".
Proof. reflexivity. Qed.

(** ** Classification *)

Section classification.
Implicit Types (txt feature keyword : str) (table : gmap str str) (found : gset str).

#[local] Instance str_le_refl : Reflexive Py.str_le.
Proof. intros a. by right. Qed.

#[local] Instance str_le_trans : Transitive Py.str_le.
Proof.
  intros a b c [Hab| ->] [Hbc| ->]; [left|by left|by left|by right].
  by trans b.
Qed.

#[local] Instance str_le_total : Total Py.str_le.
Proof.
  intros a b. destruct (trichotomy (lexico (A:=str)) a b) as [?|[->|?]].
  - by left; left.
  - by left; right.
  - by right; left.
Qed.

(** [sorted] returns the same strings, in ascending order. *)
Lemma sorted_Sorted (xs : list str) : Sorted Py.str_le (Py.sorted xs).
Proof. apply (Sorted_merge_sort _). Qed.

Lemma sorted_Permutation (xs : list str) : Py.sorted xs ≡ₚ xs.
Proof. apply merge_sort_Permutation. Qed.

Lemma sorted_elements (found : gset str) feature :
  feature ∈ Py.sorted (elements found) ↔ feature ∈ found.
Proof. by rewrite sorted_Permutation, elem_of_elements. Qed.

Lemma sorted_elements_unique (found : gset str) :
  Spec.sorted_unique (Py.sorted (elements found)).
Proof.
  split; [apply sorted_Sorted|].
  rewrite sorted_Permutation. apply NoDup_elements.
Qed.

(** The inner loop adds the features whose keyword occurs in [txt]. *)
Lemma scan_pairs txt (pairs : list (str * str)) found feature :
  feature ∈ foldl (λ found '(keyword, feature),
                     if Py.contains keyword txt then found ∪ {[feature]} else found)
                  found pairs
  ↔ feature ∈ found
    ∨ ∃ keyword, (keyword, feature) ∈ pairs ∧ Spec.substring keyword txt.
Proof.
  revert found. induction pairs as [|[k v] pairs IH]; intros found; simpl.
  - split; [by left|]. intros [?|(? & ?%elem_of_nil & _)]; done.
  - rewrite IH. destruct (Py.contains k txt) eqn:Hk.
    + apply contains_spec in Hk. rewrite elem_of_union, elem_of_singleton. split.
      * intros [[?| ->]|(k' & Hin & Hsub)]; [by left|right..].
        -- exists k. split; [left|done].
        -- exists k'. split; [by right|done].
      * intros [?|(k' & [[= -> ->]|Hin]%elem_of_cons & Hsub)]; [by left; left|by left; right|].
        right. by exists k'.
    + assert (¬ Spec.substring k txt) as Hk'.
      { intros Hs%contains_spec. congruence. }
      split.
      * intros [?|(k' & Hin & Hsub)]; [by left|right].
        exists k'. split; [by right|done].
      * intros [?|(k' & [[= -> ->]|Hin]%elem_of_cons & Hsub)]; [by left|done|].
        right. by exists k'.
Qed.

Lemma scanTable_spec txt table found feature :
  feature ∈ scanTable txt table found
  ↔ feature ∈ found
    ∨ ∃ keyword, table !! keyword = Some feature ∧ Spec.substring keyword txt.
Proof.
  unfold scanTable. rewrite scan_pairs.
  by setoid_rewrite elem_of_map_to_list.
Qed.

(** The loop over the objects, from any four sets. *)
Lemma scan_objects_from (objects : list DiagramObject) (tables : Mappings)
    (a0 n0 b0 i0 : gset str) :
  match foldl (λ '(algos, nfrs_, backs, integrs) obj,
                 let txt := obj_norm obj in
                 (scanTable txt (algorithms tables) algos,
                  scanTable txt (nfrs tables) nfrs_,
                  scanTable txt (backend tables) backs,
                  scanTable txt (integration tables) integrs))
              (a0, n0, b0, i0) objects
  with
  | (a, n, b, i) =>
      (∀ f, f ∈ a ↔ f ∈ a0 ∨ Spec.triggered objects (algorithms tables) f)
      ∧ (∀ f, f ∈ n ↔ f ∈ n0 ∨ Spec.triggered objects (nfrs tables) f)
      ∧ (∀ f, f ∈ b ↔ f ∈ b0 ∨ Spec.triggered objects (backend tables) f)
      ∧ (∀ f, f ∈ i ↔ f ∈ i0 ∨ Spec.triggered objects (integration tables) f)
  end.
Proof.
  revert a0 n0 b0 i0. unfold Spec.triggered.
  induction objects as [|obj objects IH]; intros a0 n0 b0 i0; simpl.
  - split_and!; intros f; (split; [by left|]);
      intros [?|(? & ? & _ & ?%elem_of_nil & _)]; done.
  - specialize (IH (scanTable (obj_norm obj) (algorithms tables) a0)
                   (scanTable (obj_norm obj) (nfrs tables) n0)
                   (scanTable (obj_norm obj) (backend tables) b0)
                   (scanTable (obj_norm obj) (integration tables) i0)).
    destruct (foldl _ _ objects) as [[[a n] b] i].
    destruct IH as (Ha & Hn & Hb & Hi).
    split_and!; intros f;
      [rewrite Ha|rewrite Hn|rewrite Hb|rewrite Hi];
      rewrite scanTable_spec; setoid_rewrite elem_of_cons; naive_solver.
Qed.

End classification.

(** C1. For every list of objects and every four tables, the set the loop
    collects for a category (before the defaults) holds a feature exactly when
    some (keyword, feature) pair of that category's table has its keyword
    occurring as a substring of some object's [norm]; the lists of algorithms
    and NFRs returned hold exactly those features, the lists of backends and
    integrations exactly those of the sets after [applyDefaultValues]; and each
    of the four returned lists is lexicographically sorted without a repeated
    name. *)
Theorem classification_exact_sorted_unique
    (objectList : list DiagramObject) (mappingDictionaries : Mappings) :
  match scanObjects objectList mappingDictionaries,
        mapIStarObjectsToFeatures objectList mappingDictionaries with
  | (algos0, nfrs0, backs0, integrs0), (algos, nfrs_, backs, integrs) =>
      (∀ f, f ∈ algos0 ↔ Spec.triggered objectList (algorithms mappingDictionaries) f)
      ∧ (∀ f, f ∈ nfrs0 ↔ Spec.triggered objectList (nfrs mappingDictionaries) f)
      ∧ (∀ f, f ∈ backs0 ↔ Spec.triggered objectList (backend mappingDictionaries) f)
      ∧ (∀ f, f ∈ integrs0 ↔ Spec.triggered objectList (integration mappingDictionaries) f)
      ∧ (∀ f, f ∈ algos ↔ f ∈ algos0)
      ∧ (∀ f, f ∈ nfrs_ ↔ f ∈ nfrs0)
      ∧ (∀ f, f ∈ backs ↔ f ∈ (applyDefaultValues backs0 integrs0 mappingDictionaries).1)
      ∧ (∀ f, f ∈ integrs ↔ f ∈ (applyDefaultValues backs0 integrs0 mappingDictionaries).2)
      ∧ Spec.sorted_unique algos ∧ Spec.sorted_unique nfrs_
      ∧ Spec.sorted_unique backs ∧ Spec.sorted_unique integrs
  end.
Proof.
  unfold mapIStarObjectsToFeatures.
  pose proof (scan_objects_from objectList mappingDictionaries ∅ ∅ ∅ ∅) as Hscan.
  unfold scanObjects.
  destruct (foldl _ _ objectList) as [[[a0 n0] b0] i0].
  destruct Hscan as (Ha & Hn & Hb & Hi).
  destruct (applyDefaultValues b0 i0 mappingDictionaries) as [b i] eqn:Hdef.
  split_and!; try (intros f; apply sorted_elements); try apply sorted_elements_unique.
  - intros f. rewrite Ha. set_solver.
  - intros f. rewrite Hn. set_solver.
  - intros f. rewrite Hb. set_solver.
  - intros f. rewrite Hi. set_solver.
Qed.

(** ** Default values *)

Lemma values_declares (table : gmap str str) (feature : str) :
  feature ∈ (map_to_list table).*2 ↔ Spec.declares table feature.
Proof.
  unfold Spec.declares. rewrite list_elem_of_fmap. split.
  - intros ([k v] & -> & Hkv%elem_of_map_to_list). by exists k.
  - intros (k & Hk). exists (k, feature). by rewrite elem_of_map_to_list.
Qed.

(** One branch of [applyDefaultValues]: the default is added to an empty set
    when the table declares it, and nothing else changes. *)
Lemma default_branch (found : gset str) (table : gmap str str) (feature : str) :
  let result :=
    if bool_decide (size found = 0%nat) && bool_decide (feature ∈ (map_to_list table).*2)
    then found ∪ {[feature]} else found in
  (found = ∅ ∧ Spec.declares table feature → result = {[feature]})
  ∧ (found = ∅ ∧ ¬ Spec.declares table feature → result = ∅)
  ∧ (found ≠ ∅ → result = found).
Proof.
  assert (size found = 0%nat ↔ found = ∅) as Hsize.
  { rewrite size_empty_iff. apply leibniz_equiv_iff. }
  cbv zeta. split_and!.
  - intros [-> Hd%values_declares]. rewrite !bool_decide_eq_true_2 by done.
    simpl. set_solver.
  - intros [-> Hd]. rewrite bool_decide_eq_true_2 by done.
    by rewrite bool_decide_eq_false_2 by (by rewrite values_declares).
  - intros Hne. by rewrite bool_decide_eq_false_2 by (by rewrite Hsize).
Qed.

(** C2. For every classified backend and integration set and every tables:
    an empty backend set becomes [{"Hardware"}] when ["Hardware"] is among the
    backend table's feature values and stays empty when it is not; an empty
    integration set becomes [{"Middleware"}] when ["Middleware"] is among the
    integration table's feature values and stays empty when it is not; a set
    that is not empty is returned unchanged. *)
Theorem applyDefaultValues_cases (backs integrs : gset str) (tables : Mappings) :
  let result := applyDefaultValues backs integrs tables in
  (backs = ∅ ∧ Spec.declares (backend tables) (py "Hardware")
     → result.1 = {[py "Hardware"]})
  ∧ (backs = ∅ ∧ ¬ Spec.declares (backend tables) (py "Hardware") → result.1 = ∅)
  ∧ (backs ≠ ∅ → result.1 = backs)
  ∧ (integrs = ∅ ∧ Spec.declares (integration tables) (py "Middleware")
     → result.2 = {[py "Middleware"]})
  ∧ (integrs = ∅ ∧ ¬ Spec.declares (integration tables) (py "Middleware")
     → result.2 = ∅)
  ∧ (integrs ≠ ∅ → result.2 = integrs).
Proof.
  unfold applyDefaultValues. cbn [fst snd].
  destruct (default_branch backs (backend tables) (py "Hardware")) as (? & ? & ?).
  destruct (default_branch integrs (integration tables) (py "Middleware")) as (? & ? & ?).
  by split_and!.
Qed.

Example default_hardware :
  applyDefaultValues ∅ ∅
    {| algorithms := ∅; nfrs := ∅; backend := {[py "gpu" := py "Hardware"]};
       integration := {[py "rest" := py "Api"]} |}
  = ({[py "Hardware"]}, ∅).
Proof. by vm_compute. Qed.

Example default_cloud_only :
  applyDefaultValues ∅ ∅
    {| algorithms := ∅; nfrs := ∅; backend := {[py "aws" := py "Cloud"]};
       integration := ∅ |}
  = (∅, ∅).
Proof. by vm_compute. Qed.

(** ** Rendering *)

Section rendering.
Implicit Types (root line text : str) (lines algos backs integrs : list str).

(** A loop that appends one line for each element. *)
Lemma foldl_append {A} (f : A → str) (xs : list A) lines :
  foldl (λ lines x, lines ++ [f x]) lines xs = lines ++ (f <$> xs).
Proof.
  revert lines. induction xs as [|x xs IH]; intros lines; simpl.
  - by rewrite app_nil_r.
  - by rewrite IH, <-app_assoc.
Qed.

Lemma group_lines name header features lines :
  header = Spec.indent 2 (name ++ py " {") →
  (if bool_decide (0 < length features)%nat then
     (foldl (λ lines x, lines ++ [py "      " ++ x]) (lines ++ [header]) features)
     ++ [py "    }"]
   else lines)
  = lines ++ Spec.group name features.
Proof.
  intros ->. destruct features as [|x xs]; simpl.
  - by rewrite app_nil_r.
  - rewrite foldl_append. by rewrite <-!app_assoc.
Qed.

Lemma constrained_decide algos (nfrs_ : list str) :
  bool_decide (0 < length algos)%nat && bool_decide (py "Precision" ∈ nfrs_) = true
  ↔ Spec.constrained algos nfrs_.
Proof.
  unfold Spec.constrained.
  rewrite andb_true_iff, !bool_decide_eq_true.
  destruct algos; simpl; [|split; intros [_ ?]; split; (done || lia)].
  split; intros [? _]; (done || lia).
Qed.

(** The lines of [buildUvlModel], by block. *)
Lemma uvlLines_blocks root algos (nfrs_ : list str) backs integrs :
  uvlLines root algos nfrs_ backs integrs =
    Spec.featuresBlock root algos nfrs_ backs integrs
    ++ if bool_decide (0 < length algos)%nat && bool_decide (py "Precision" ∈ nfrs_)
       then Spec.constraintsBlock algos else [].
Proof.
  unfold uvlLines. cbv zeta.
  rewrite (group_lines (py "Algorithm") _ algos) by reflexivity.
  rewrite (group_lines (py "Backend") _ backs) by reflexivity.
  rewrite (group_lines (py "IntegrationModel") _ integrs) by reflexivity.
  rewrite !foldl_append.
  unfold Spec.featuresBlock, Spec.constraintsBlock.
  destruct (_ && _); rewrite ?app_nil_r, <-?app_assoc; reflexivity.
Qed.

(** An indented line starts with a space. *)
Lemma indented_no_header level text :
  (0 < level)%nat → py "constraints {" ≠ Spec.indent level text.
Proof.
  destruct level as [|level]; [lia|]. intros _ Heq.
  apply (f_equal head) in Heq.
  replace (2 * S level)%nat with (S (S (2 * level))) in Heq by lia.
  vm_compute in Heq. discriminate Heq.
Qed.

(** No line of the [features] block is the header of the other block: each
    is indented, or is ["features {"], ["}"] or the empty line. *)
Lemma featuresBlock_no_header root algos (nfrs_ : list str) backs integrs :
  py "constraints {" ∉ Spec.featuresBlock root algos nfrs_ backs integrs.
Proof.
  assert (∀ name features, py "constraints {" ∉ Spec.group name features) as Hgroup.
  { intros name [|x xs]; [apply not_elem_of_nil|]. unfold Spec.group.
    rewrite !elem_of_app, list_elem_of_fmap, !elem_of_cons, !elem_of_nil.
    intros [[Heq|[]]|[(? & Heq & _)|[Heq|[]]]];
      by apply indented_no_header in Heq; [|lia]. }
  unfold Spec.featuresBlock.
  rewrite !elem_of_app, list_elem_of_fmap, !elem_of_cons, elem_of_nil.
  intros [[Heq|[Heq|[]]]|[Hin|[Hin|[Hin|[(? & Heq & _)|[Heq|[Heq|[Heq|[]]]]]]]]];
    first [ by apply Hgroup in Hin
          | by apply indented_no_header in Heq; [|lia]
          | by vm_compute in Heq ].
Qed.

Lemma join_snoc sep lines line :
  lines ≠ [] → Py.join sep (lines ++ [line]) = Py.join sep lines ++ sep ++ line.
Proof.
  induction lines as [|x [|y lines] IH]; intros Hne; [done|done|].
  change (Py.join sep ((x :: y :: lines) ++ [line]))
    with (x ++ sep ++ Py.join sep ((y :: lines) ++ [line])).
  rewrite IH by done.
  change (Py.join sep (x :: y :: lines)) with (x ++ sep ++ Py.join sep (y :: lines)).
  by rewrite <-!app_assoc.
Qed.

Lemma join_app sep lines1 lines2 :
  lines1 ≠ [] → lines2 ≠ [] →
  Py.join sep (lines1 ++ lines2) = Py.join sep lines1 ++ sep ++ Py.join sep lines2.
Proof.
  intros Hne1. revert lines1 Hne1.
  induction lines2 as [|x lines2 IH] using rev_ind; intros lines1 Hne1 Hne2; [done|].
  destruct lines2 as [|y lines2].
  - simpl. by apply join_snoc.
  - rewrite app_assoc, !join_snoc, IH; [|done..|by destruct lines1].
    by rewrite <-!app_assoc.
Qed.

Lemma endswith_last c text : Spec.endswith [c] text → last text = Some c.
Proof. intros [body ->]. apply last_snoc. Qed.

End rendering.

Lemma join_featuresBlock (root : str) (algos nfrs_ backs integrs : list str) :
  ∃ body, Py.join NL (Spec.featuresBlock root algos nfrs_ backs integrs)
          = body ++ py "}" ++ NL.
Proof.
  assert (∀ (lines : list str) a b,
            Py.join NL (lines ++ [a; b; []])
            = (Py.join NL (lines ++ [a]) ++ NL) ++ b ++ NL) as Hend.
  { intros lines a b.
    replace (lines ++ [a; b; []]) with (((lines ++ [a]) ++ [b]) ++ [[]])
      by (by rewrite <-!app_assoc).
    rewrite (join_snoc _ ((lines ++ [a]) ++ [b])) by (by destruct lines).
    rewrite (join_snoc _ (lines ++ [a]) b) by (by destruct lines).
    by rewrite app_nil_r, <-!app_assoc. }
  unfold Spec.featuresBlock. rewrite !app_assoc, Hend. by eexists.
Qed.

Lemma join_constraintsBlock (algos : list str) :
  ∃ body, Py.join NL (Spec.constraintsBlock algos) = body ++ NL ++ py "}".
Proof.
  unfold Spec.constraintsBlock. rewrite app_assoc, join_snoc by done. by eexists.
Qed.

(** C6. For every rendering input, the lines of the output hold the header
    ["constraints {"] if and only if the list of algorithms is not empty and
    ["Precision"] is a member of the NFRs; the output is then the [features]
    block followed by the header, one line ["  <algo> requires Precision"] for
    each algorithm in the order of the list, and a closing brace; otherwise it
    is the [features] block alone. *)
Theorem constraints_block_iff (rootFeature : str) (algos nfrs_ backs integrs : list str) :
  let lines := uvlLines rootFeature algos nfrs_ backs integrs in
  let features := Spec.featuresBlock rootFeature algos nfrs_ backs integrs in
  let block :=
    [py "constraints {"]
    ++ ((λ algo, py "  " ++ algo ++ py " requires Precision") <$> algos)
    ++ [py "}"] in
  (py "constraints {" ∈ lines ↔ algos ≠ [] ∧ py "Precision" ∈ nfrs_)
  ∧ (algos ≠ [] ∧ py "Precision" ∈ nfrs_ →
       lines = features ++ block
       ∧ buildUvlModel rootFeature algos nfrs_ backs integrs
         = Py.join NL features ++ NL ++ Py.join NL block)
  ∧ (¬ (algos ≠ [] ∧ py "Precision" ∈ nfrs_) →
       lines = features
       ∧ buildUvlModel rootFeature algos nfrs_ backs integrs = Py.join NL features).
Proof.
  cbv zeta. unfold buildUvlModel. rewrite uvlLines_blocks.
  pose proof (featuresBlock_no_header rootFeature algos nfrs_ backs integrs) as Hno.
  pose proof (constrained_decide algos nfrs_) as Hdec. unfold Spec.constrained in Hdec.
  destruct (_ && _).
  - assert (algos ≠ [] ∧ py "Precision" ∈ nfrs_) as Hc by (by apply Hdec).
    split_and!; [|intros _|done].
    + split; [done|]. intros _. apply elem_of_app. right. left.
    + split; [done|]. by apply join_app.
  - assert (¬ (algos ≠ [] ∧ py "Precision" ∈ nfrs_)) as Hc.
    { intros ?%Hdec. done. }
    rewrite app_nil_r. by split_and!.
Qed.

Example render_constraints :
  uvlLines (py "Test") [py "A"; py "B"] [py "Precision"] [] [] =
    [py "features {"; py "  Test {"; py "    Algorithm {"; py "      A"; py "      B";
     py "    }"; py "    Precision"; py "  }"; py "}"; py "";
     py "constraints {"; py "  A requires Precision"; py "  B requires Precision"; py "}"].
Proof. reflexivity. Qed.

(** C9. The claim fails at root ["Test"], algorithms [["A"]], NFRs
    [["Precision"]]: the output ends with the closing brace of the constraints
    block, not with a newline. *)
Lemma constraints_output_has_no_final_newline :
  ¬ Spec.endswith NL (buildUvlModel (py "Test") [py "A"] [py "Precision"] [] []).
Proof. intros Hend%endswith_last. vm_compute in Hend. discriminate Hend. Qed.

(** C9, amended. For every rendering input, each line is indented by two
    spaces for each nesting level (the blocks of [Spec.featuresBlock] and
    [Spec.constraintsBlock]). Without a constraints block the output ends with
    the closing root brace and one newline. With a constraints block the
    closing root brace is followed by a newline, a blank separator line and the
    block, and the output ends with the block's closing brace. *)
Theorem rendering_indent_and_ending
    (rootFeature : str) (algos nfrs_ backs integrs : list str) :
  let text := buildUvlModel rootFeature algos nfrs_ backs integrs in
  let features := Spec.featuresBlock rootFeature algos nfrs_ backs integrs in
  (¬ Spec.constrained algos nfrs_ →
     uvlLines rootFeature algos nfrs_ backs integrs = features
     ∧ Spec.endswith (py "}" ++ NL) text)
  ∧ (Spec.constrained algos nfrs_ →
       uvlLines rootFeature algos nfrs_ backs integrs
       = features ++ Spec.constraintsBlock algos
       ∧ Spec.endswith (py "}" ++ NL ++ NL ++ Py.join NL (Spec.constraintsBlock algos)) text
       ∧ Spec.endswith (NL ++ py "}") text
       ∧ ¬ Spec.endswith NL text).
Proof.
  cbv zeta. unfold buildUvlModel. rewrite uvlLines_blocks.
  pose proof (constrained_decide algos nfrs_) as Hdec.
  destruct (join_featuresBlock rootFeature algos nfrs_ backs integrs) as [body Hbody].
  destruct (join_constraintsBlock algos) as [body' Hbody'].
  destruct (_ && _).
  - split; [intros []; by apply Hdec|]. intros _.
    rewrite join_app by done. rewrite Hbody. split_and!; [done| | |].
    + exists body. by rewrite <-!app_assoc.
    + rewrite Hbody'. exists (body ++ py "}" ++ NL ++ NL ++ body').
      by rewrite <-!app_assoc.
    + rewrite Hbody'. intros [b Hend]. apply (f_equal last) in Hend.
      change (py "}") with [125] in Hend. unfold NL in Hend.
      rewrite !app_assoc, !last_snoc in Hend. discriminate Hend.
  - split; [intros _|by intros ?%Hdec]. rewrite app_nil_r. split; [done|].
    by exists body.
Qed.

(** ** Identifiers *)

Section identifiers.
Context `{Externals}.

(** A loop that appends the image of the elements that pass a test. *)
Lemma foldl_append_if {A B} (test : A → bool) (f : A → B) (xs : list A) (acc : list B) :
  foldl (λ acc x, if test x then acc ++ [f x] else acc) acc xs
  = acc ++ (f <$> filter (λ x, test x = true) xs).
Proof.
  revert acc. induction xs as [|x xs IH]; intros acc; simpl.
  - by rewrite app_nil_r.
  - rewrite IH, filter_cons. destruct (test x) eqn:Hx.
    + rewrite decide_True by done. by rewrite <-app_assoc.
    + by rewrite decide_False by done.
Qed.

Lemma foldl_ext {A B} (f g : B → A → B) (xs : list A) (acc : B) :
  (∀ acc x, f acc x = g acc x) → foldl f acc xs = foldl g acc xs.
Proof.
  intros Hfg. revert acc. induction xs as [|x xs IH]; intros acc; simpl; [done|].
  by rewrite Hfg, IH.
Qed.

Lemma join_empty (words : list str) : Py.join [] words = concat words.
Proof.
  induction words as [|w [|w' words] IH]; [done|by simpl; rewrite app_nil_r|].
  change (Py.join [] (w :: w' :: words)) with (w ++ [] ++ Py.join [] (w' :: words)).
  by rewrite IH.
Qed.

(** A loop that appends one character for each character read. *)
Lemma foldl_characters (g : char → char) (text : str) (acc : list str) :
  concat (foldl (λ acc c, acc ++ [[g c]]) acc text) = concat acc ++ (g <$> text).
Proof.
  revert acc. induction text as [|c text IH]; intros acc; simpl.
  - by rewrite app_nil_r.
  - rewrite IH, concat_app. simpl. by rewrite <-app_assoc.
Qed.

Lemma convertTextToUvlIdentifier_steps (inputText : option str) :
  V2.convertTextToUvlIdentifier inputText = Spec.toIdentifier inputText.
Proof.
  destruct inputText as [text|]; [|done].
  unfold V2.convertTextToUvlIdentifier, Spec.toIdentifier.
  rewrite !join_empty, foldl_append_if, app_nil_l.
  set (keep c := if char_isalnum c || (c =? SPACE) || (c =? UNDERSCORE) then c else SPACE).
  assert (concat (foldl (λ cleanedCharacters character,
              if char_isalnum character || bool_decide (character ∈ [SPACE; UNDERSCORE])
              then cleanedCharacters ++ [[character]]
              else cleanedCharacters ++ [py " "]) [] text) = keep <$> text) as ->.
  { trans (concat (foldl (λ acc c, acc ++ [[keep c]]) [] text));
      [|by rewrite foldl_characters].
    f_equal. apply foldl_ext. intros acc c. unfold keep.
    replace (bool_decide (c ∈ [SPACE; UNDERSCORE]))
      with ((c =? SPACE) || (c =? UNDERSCORE)).
    - rewrite orb_assoc. by destruct (_ || _).
    - apply eq_true_iff_eq.
      rewrite bool_decide_eq_true, orb_true_iff, !N.eqb_eq, !elem_of_cons, elem_of_nil.
      tauto. }
  destruct text as [|c text].
  - done.
  - unfold Py.replace. fold keep.
    destruct (filter _ _) as [|w ws]; [done|].
    by rewrite bool_decide_eq_false_2 by done.
Qed.

Lemma formatRootFeatureName_steps (inputText : option str) :
  V1.formatRootFeatureName inputText
  = Spec.toIdentifierNormalized V1.normalizeText inputText.
Proof.
  destruct inputText as [[|c text]|]; [done| |done].
  unfold V1.formatRootFeatureName, Spec.toIdentifierNormalized.
  rewrite join_empty, foldl_append_if, app_nil_l. unfold Py.replace.
  by destruct (concat _).
Qed.

End identifiers.

(** C3. The claim fails for [formatRootFeatureName] of [src/iStar-UVL.py]:
    ["protein-folding"] does not yield ["ProteinFolding"]. *)
Lemma formatRootFeatureName_keeps_punctuation :
  V1.formatRootFeatureName (H := Sample.sample) (Some (py "protein-folding"))
  ≠ py "ProteinFolding".
Proof. vm_compute. discriminate. Qed.

Example formatRootFeatureName_protein_folding :
  V1.formatRootFeatureName (H := Sample.sample) (Some (py "protein-folding")) = py "RootGoal".
Proof. reflexivity. Qed.

Example convertTextToUvlIdentifier_protein_folding :
  V2.convertTextToUvlIdentifier (H := Sample.sample) (Some (py "protein-folding"))
  = py "ProteinFolding".
Proof. reflexivity. Qed.

Example convertTextToUvlIdentifier_punctuation :
  V2.convertTextToUvlIdentifier (H := Sample.sample) (Some (py "!!!")) = py "RootGoal".
Proof. reflexivity. Qed.

(** C3, amended. For every input, [convertTextToUvlIdentifier] of
    [src/istar-uvl.py] replaces each character that is not alphanumeric, a
    space or an underscore with a space, replaces underscores with spaces,
    splits on whitespace, keeps the alphanumeric words, capitalizes each and
    concatenates them; it returns ["RootGoal"] for a null or empty input and
    when no word is kept. [formatRootFeatureName] of [src/iStar-UVL.py] does
    not replace punctuation: it takes the words of the sanitized, normalized
    text after replacing underscores, keeps the alphanumeric ones, capitalizes
    and concatenates them, and returns ["RootGoal"] for a null or empty input
    and when the result is empty. *)
Theorem identifier_formatters `{Externals} (inputText : option str) :
  V2.convertTextToUvlIdentifier inputText = Spec.toIdentifier inputText
  ∧ V1.formatRootFeatureName inputText
    = Spec.toIdentifierNormalized V1.normalizeText inputText.
Proof.
  split; [apply convertTextToUvlIdentifier_steps|apply formatRootFeatureName_steps].
Qed.

(** ** Mapping files *)

Section loading.
Context `{Externals}.
Implicit Types (line s : str) (lines : list str) (m : gmap str str).

Lemma split_once_contains sep s :
  Py.contains sep s = true → ∃ k f, Py.split_once sep s = Some (k, f).
Proof.
  induction s as [|c s IH]; cbn [Py.contains Py.split_once].
  - rewrite orb_false_r. intros ->. eauto.
  - destruct (Py.startswith sep (c :: s)); [eauto|]. simpl.
    intros (k & f & ->)%IH. eauto.
Qed.

(** The parts [split_once] returns are those around the delimiter. *)
Lemma split_once_parts sep s k f :
  Py.split_once sep s = Some (k, f) → s = k ++ sep ++ f.
Proof.
  revert k. induction s as [|c s IH]; intros k; cbn [Py.split_once].
  - destruct (Py.startswith sep []) eqn:Hs; [|done].
    intros [= <- <-]. destruct sep; [done|by destruct sep].
  - destruct (Py.startswith sep (c :: s)) eqn:Hs.
    + intros [= <- <-]. apply startswith_spec in Hs as [b Hb].
      rewrite Hb at 2. rewrite drop_app_length. by rewrite Hb.
    + destruct (Py.split_once sep s) as [[k' f']|]; [|done].
      intros [= <- <-]. simpl. f_equal. by apply IH.
Qed.

Lemma lstrip_blank s : Forall (λ c, Py.isspace c = true) s → Py.lstrip s = [].
Proof. induction 1 as [|c s Hc _ IH]; [done|]. simpl. by rewrite Hc. Qed.

Lemma strip_blank line : Py.strip line = [] ↔ Spec.blank line.
Proof.
  unfold Spec.blank. split.
  - intros Hs. destruct (strip_spec line) as (a & b & Hl & Ha & Hb).
    rewrite Hl, Hs. apply Forall_app. split; [done|]. by apply Forall_app.
  - intros Hl. unfold Py.strip. by rewrite lstrip_blank.
Qed.

(** The test at the head of the loop of [src/istar-uvl.py]. *)
Lemma skipped_iff line :
  bool_decide (Py.strip line = [])
  || Py.startswith (py "#") (Py.strip line)
  || negb (Py.contains (py "=>") (Py.strip line)) = false
  ↔ Spec.accepted line.
Proof.
  unfold Spec.accepted, Spec.comment, Spec.delimited.
  rewrite contains_arrow_strip, !orb_false_iff, negb_false_iff, bool_decide_eq_false.
  rewrite strip_blank, not_true_iff_false. tauto.
Qed.

Lemma V2_readLine_entry m line :
  V2.readLine m line =
    Ok (match (if decide (Spec.accepted line)
               then Spec.entry V2.normalizeText line else None) with
        | Some (k, v) => <[k := v]> m
        | None => m
        end).
Proof.
  unfold V2.readLine. pose proof (skipped_iff line) as Hskip.
  destruct (_ || _ || _).
  - rewrite decide_False; [done|]. intros ?%Hskip. done.
  - assert (Spec.accepted line) as Hacc by (by apply Hskip).
    rewrite decide_True by done. destruct Hacc as (Hd & _).
    apply split_once_contains in Hd as (k & f & Hkf).
    unfold Spec.entry, Spec.keyFeature. by rewrite Hkf.
Qed.

Lemma lstrip_skip_spaces a s :
  Forall (λ c, Py.isspace c = true) a → Py.lstrip (a ++ s) = Py.lstrip s.
Proof. induction 1 as [|c a Hc _ IH]; [done|]. simpl. by rewrite Hc. Qed.

Lemma strip_skip_spaces_l a s :
  Forall (λ c, Py.isspace c = true) a → Py.strip (a ++ s) = Py.strip s.
Proof. intros Ha. unfold Py.strip. by rewrite lstrip_skip_spaces. Qed.

Lemma rstrip_skip_spaces s b :
  Forall (λ c, Py.isspace c = true) b → Py.rstrip (s ++ b) = Py.rstrip s.
Proof.
  intros Hb. unfold Py.rstrip. rewrite rev_app_distr.
  by rewrite lstrip_skip_spaces by (by apply Forall_rev).
Qed.

Lemma strip_skip_spaces_r s b :
  Forall (λ c, Py.isspace c = true) b → Py.strip (s ++ b) = Py.strip s.
Proof.
  intros Hb. unfold Py.strip. destruct (lstrip_spec s) as (a & Hs & Ha).
  rewrite Hs at 1. rewrite <-app_assoc, lstrip_skip_spaces by done.
  destruct (Py.lstrip s) as [|c t] eqn:Hl.
  - simpl. by rewrite lstrip_blank.
  - apply lstrip_head in Hl. rewrite <-app_comm_cons, lstrip_fixed by done.
    rewrite app_comm_cons. by apply rstrip_skip_spaces.
Qed.

(** The delimiter is found at the same place after a whitespace prefix. *)
Lemma split_once_skip_spaces c0 p a s :
  Py.isspace c0 = false → Forall (λ c, Py.isspace c = true) a →
  Py.split_once (c0 :: p) (a ++ s)
  = (λ '(k, f), (a ++ k, f)) <$> Py.split_once (c0 :: p) s.
Proof.
  intros Hc0. induction 1 as [|c a Hc _ IH].
  - simpl. by destruct (Py.split_once _ s) as [[??]|].
  - rewrite <-app_comm_cons. cbn [Py.split_once Py.startswith].
    destruct (c0 =? c) eqn:Heq; [apply N.eqb_eq in Heq; congruence|].
    cbn [andb]. rewrite IH. by destruct (Py.split_once _ s) as [[??]|].
Qed.

Lemma startswith_app_long sep s b :
  (length sep ≤ length s)%nat → Py.startswith sep (s ++ b) = Py.startswith sep s.
Proof.
  revert s. induction sep as [|x sep IH]; intros [|c s] Hlen; simpl in *; try done; [lia|].
  rewrite IH by lia. done.
Qed.

(** Text after the line does not move the first delimiter. *)
Lemma split_once_app sep s b k f :
  Py.split_once sep s = Some (k, f) → Py.split_once sep (s ++ b) = Some (k, f ++ b).
Proof.
  revert k. induction s as [|c s IH]; intros k; cbn [Py.split_once].
  - destruct (Py.startswith sep []) eqn:Hs; [|done]. intros [= <- <-].
    destruct sep; [|done]. simpl. by destruct b.
  - destruct (Py.startswith sep (c :: s)) eqn:Hs.
    + intros [= <- <-]. apply startswith_spec in Hs as [r Hr].
      rewrite <-app_comm_cons. cbn [Py.split_once].
      assert (c :: s ++ b = sep ++ r ++ b) as Hrb
        by (by rewrite app_comm_cons, Hr, <-app_assoc).
      assert (Py.startswith sep (c :: s ++ b) = true) as ->
        by (apply startswith_spec; eauto).
      by rewrite Hrb, Hr, !drop_app_length.
    + destruct (Py.split_once sep s) as [[k' f']|] eqn:Hsplit; [|done].
      intros [= <- <-]. rewrite <-app_comm_cons. cbn [Py.split_once].
      rewrite app_comm_cons, startswith_app_long, Hs.
      * by rewrite (IH k').
      * apply split_once_parts in Hsplit. rewrite Hsplit. simpl.
        rewrite !length_app. lia.
Qed.

(** The entry of a line is the entry of its stripped form. *)
Lemma entry_strip line :
  Spec.delimited line →
  Spec.entry V1.normalizeText (Py.strip line) = Spec.entry V1.normalizeText line.
Proof.
  unfold Spec.delimited. rewrite <-contains_arrow_strip.
  intros (k & f & Hkf)%split_once_contains.
  destruct (strip_spec line) as (a & b & Hline & Ha & Hb).
  unfold Spec.entry, Spec.keyFeature. rewrite Hline at 2.
  change (py "=>") with [61; GT] in *.
  rewrite split_once_skip_spaces by done.
  rewrite (split_once_app _ _ b k f), Hkf by done. simpl.
  unfold V1.normalizeText. by rewrite strip_skip_spaces_l, strip_skip_spaces_r.
Qed.

Lemma V1_readLine_entry m line :
  V1.readLine m line =
    Ok (match (if decide (Spec.delimited line)
               then Spec.entry V1.normalizeText line else None) with
        | Some (k, v) => <[k := v]> m
        | None => m
        end).
Proof.
  unfold V1.readLine. rewrite contains_arrow_strip.
  destruct (decide (Spec.delimited line)) as [Hd|Hd].
  - rewrite <-entry_strip by done. unfold Spec.delimited in Hd.
    rewrite Hd. simpl. rewrite <-contains_arrow_strip in Hd.
    apply split_once_contains in Hd as (k & f & Hkf).
    unfold Spec.entry, Spec.keyFeature. by rewrite Hkf.
  - unfold Spec.delimited in Hd. apply not_true_is_false in Hd. by rewrite Hd.
Qed.

(** The loops never raise, and build the table of the accepted lines. *)
Lemma V2_readLines_table m lines :
  V2.readLines m lines =
    Ok (Spec.extend m (omap (Spec.entry V2.normalizeText) (filter Spec.accepted lines))).
Proof.
  revert m. induction lines as [|line lines IH]; intros m; [done|].
  cbn [V2.readLines]. rewrite V2_readLine_entry. cbn [mbind result_bind].
  rewrite IH, filter_cons. destruct (decide (Spec.accepted line)); [|done].
  cbn [omap list_omap]. by destruct (Spec.entry _ line) as [[k v]|].
Qed.

Lemma V1_readLines_table m lines :
  V1.readLines m lines =
    Ok (Spec.extend m (omap (Spec.entry V1.normalizeText) (filter Spec.delimited lines))).
Proof.
  revert m. induction lines as [|line lines IH]; intros m; [done|].
  cbn [V1.readLines]. rewrite V1_readLine_entry. cbn [mbind result_bind].
  rewrite IH, filter_cons. destruct (decide (Spec.delimited line)); [|done].
  cbn [omap list_omap]. by destruct (Spec.entry _ line) as [[k v]|].
Qed.

(** The last entry for a key is the one the table keeps. *)
Lemma extend_last m (before after : list (str * str)) k v :
  k ∉ after.*1 → Spec.extend m (before ++ (k, v) :: after) !! k = Some v.
Proof.
  unfold Spec.extend. rewrite foldl_app. simpl.
  generalize (foldl (λ m '(k, v), <[k:=v]> m) m before). clear m before.
  intros m. revert m. induction after as [|[k' v'] after IH]; intros m Hk; simpl.
  - apply lookup_insert_eq.
  - apply not_elem_of_cons in Hk as [Hne Hk]. simpl in Hne.
    rewrite insert_insert_ne by done. by apply IH.
Qed.

End loading.

Section loading_files.
Context `{Externals}.
Implicit Types (fs : files) (lines : list str).

Lemma V2_loadMappingFile_table fs filePath :
  V2.loadMappingFile fs filePath =
    Ok (match fs !! filePath with
        | Some lines =>
            Spec.table (omap (Spec.entry V2.normalizeText) (filter Spec.accepted lines))
        | None => ∅
        end).
Proof.
  unfold V2.loadMappingFile. destruct (fs !! filePath); [|done].
  apply V2_readLines_table.
Qed.

Lemma V1_loadMappingFile_table fs filePath :
  V1.loadMappingFile fs filePath =
    match fs !! filePath with
    | Some lines =>
        Ok (Spec.table (omap (Spec.entry V1.normalizeText) (filter Spec.delimited lines)))
    | None => Raise FileNotFoundError
    end.
Proof.
  unfold V1.loadMappingFile. destruct (fs !! filePath); [|done].
  apply V1_readLines_table.
Qed.

Lemma mappingPath_inj configDirectory category1 category2 :
  mappingPath configDirectory category1 = mappingPath configDirectory category2 →
  category1 = category2.
Proof.
  unfold mappingPath. intros Heq.
  apply app_inv_head, app_inv_head in Heq. by apply app_inv_tail in Heq.
Qed.

(** A file that is absent reads like an empty one, in [src/istar-uvl.py]. *)
Lemma V2_loadMappingFile_absent fs filePath other :
  fs !! filePath = None →
  V2.loadMappingFile (<[filePath := []]> fs) other = V2.loadMappingFile fs other.
Proof.
  intros Habsent. rewrite !V2_loadMappingFile_table.
  destruct (decide (filePath = other)) as [<-|Hne].
  - by rewrite lookup_insert_eq, Habsent.
  - by rewrite lookup_insert_ne.
Qed.

End loading_files.

(** C5. The claim fails for [loadMappingFile] of [src/iStar-UVL.py]: a comment
    line that holds the delimiter produces an entry. *)
Lemma V1_comment_line_produces_entry :
  V1.loadMappingFile (H := Sample.sample)
    {[py "config/algorithms.txt" := [py "# rsa => RSA"]]} (py "config/algorithms.txt")
  = Ok {[py "# rsa" := py "RSA"]}.
Proof. vm_compute. reflexivity. Qed.

Example V2_comment_line_skipped :
  V2.loadMappingFile (H := Sample.sample)
    {[py "config/algorithms.txt" := [py "# rsa => RSA"; py ""; py "AES  =>  Aes "; py "rsa"]]}
    (py "config/algorithms.txt")
  = Ok {[py "aes" := py "Aes"]}.
Proof. vm_compute. reflexivity. Qed.

(** C5, amended. For every sequence of lines, [loadMappingFile] of
    [src/istar-uvl.py] produces an entry exactly for the lines that hold the
    ["=>"] delimiter and are neither blank nor comment lines (stripped form
    starting with ["#"]); [loadMappingFile] of [src/iStar-UVL.py] produces an
    entry exactly for the lines that hold the delimiter, so it skips blank
    lines and lines without the delimiter but not comment lines. In both, the
    key of an entry is the key part normalized by [normalizeText] and its
    feature is the feature part stripped, with its case kept; the table is
    built in file order. *)
Theorem loadMappingFile_entries `{Externals}
    (fs : files) (filePath : str) (lines : list str) :
  V2.loadMappingFile (<[filePath := lines]> fs) filePath
  = Ok (Spec.table (omap (Spec.entry V2.normalizeText) (filter Spec.accepted lines)))
  ∧ V1.loadMappingFile (<[filePath := lines]> fs) filePath
    = Ok (Spec.table (omap (Spec.entry V1.normalizeText) (filter Spec.delimited lines)))
  ∧ (∀ line, Spec.accepted line → is_Some (Spec.entry V2.normalizeText line))
  ∧ (∀ line, Spec.delimited line → is_Some (Spec.entry V1.normalizeText line))
  ∧ (∀ line, Spec.blank line → ¬ Spec.delimited line).
Proof.
  rewrite V2_loadMappingFile_table, V1_loadMappingFile_table, lookup_insert_eq.
  split_and!; [done..| | |].
  - intros line (Hd & _). apply split_once_contains in Hd as (k & f & Hkf).
    unfold Spec.entry, Spec.keyFeature. rewrite Hkf. by eexists.
  - intros line Hd. apply split_once_contains in Hd as (k & f & Hkf).
    unfold Spec.entry, Spec.keyFeature. rewrite Hkf. by eexists.
  - intros line Hb%strip_blank Hd. unfold Spec.delimited in Hd.
    rewrite <-contains_arrow_strip, Hb in Hd. done.
Qed.

(** C10. For every mapping file, when a line that produces an entry for a key
    is followed by no line that produces an entry for the same key, the table
    [loadMappingFile] returns maps that key to the feature of that line,
    whatever the earlier lines hold: of several lines with the same normalized
    key the last one in file order wins, and nothing is raised. This holds for
    both scripts, each with its own test for the lines it reads. *)
Theorem loadMappingFile_last_wins `{Externals}
    (fs : files) (filePath : str) (before after : list str) (line key feature : str) :
  (Spec.accepted line →
   Spec.entry V2.normalizeText line = Some (key, feature) →
   (∀ l f, l ∈ after → Spec.accepted l → Spec.entry V2.normalizeText l ≠ Some (key, f)) →
   ∃ m, V2.loadMappingFile (<[filePath := before ++ line :: after]> fs) filePath = Ok m
        ∧ m !! key = Some feature)
  ∧ (Spec.delimited line →
     Spec.entry V1.normalizeText line = Some (key, feature) →
     (∀ l f, l ∈ after → Spec.delimited l → Spec.entry V1.normalizeText l ≠ Some (key, f)) →
     ∃ m, V1.loadMappingFile (<[filePath := before ++ line :: after]> fs) filePath = Ok m
          ∧ m !! key = Some feature).
Proof.
  rewrite V2_loadMappingFile_table, V1_loadMappingFile_table, lookup_insert_eq.
  split.
  - intros Hacc Hentry Hafter. eexists. split; [done|].
    rewrite filter_app, filter_cons, decide_True by done.
    rewrite omap_app. cbn [omap list_omap]. rewrite Hentry.
    apply extend_last. intros ([k f] & Hk & Hin)%list_elem_of_fmap. simpl in Hk. subst k.
    apply list_elem_of_omap in Hin as (l & [Hlacc Hl]%list_elem_of_filter & Hlentry).
    by eapply Hafter.
  - intros Hacc Hentry Hafter. eexists. split; [done|].
    rewrite filter_app, filter_cons, decide_True by done.
    rewrite omap_app. cbn [omap list_omap]. rewrite Hentry.
    apply extend_last. intros ([k f] & Hk & Hin)%list_elem_of_fmap. simpl in Hk. subst k.
    apply list_elem_of_omap in Hin as (l & [Hlacc Hl]%list_elem_of_filter & Hlentry).
    by eapply Hafter.
Qed.

(** Two lines with the same normalized key: the second one wins. *)
Lemma loadMappingFile_last_wins_witness :
  ∃ m, V2.loadMappingFile (H := Sample.sample)
         (<[py "config/algorithms.txt" := [py "aes => AES"] ++ py "AES => Rijndael" :: []]> ∅)
         (py "config/algorithms.txt") = Ok m
       ∧ m !! py "aes" = Some (py "Rijndael").
Proof.
  apply (proj1 (loadMappingFile_last_wins (H := Sample.sample)
                  ∅ (py "config/algorithms.txt") [py "aes => AES"] []
                  (py "AES => Rijndael") (py "aes") (py "Rijndael"))).
  - apply (bool_decide_unpack _). vm_compute. exact I.
  - vm_compute. reflexivity.
  - intros l f Hl. inversion Hl.
Defined.

(** ** A missing mapping file *)

(** C4. The claim fails for [src/iStar-UVL.py]: with [backend.txt] absent from
    the configuration directory, loading raises [FileNotFoundError]. *)
Lemma V1_missing_file_raises :
  V1.loadAllMappingFiles (H := Sample.sample)
    {[ py "config/algorithms.txt" := [py "aes => AES"];
       py "config/nfrs.txt" := [py "precise => Precision"];
       py "config/integration.txt" := [py "bus => Middleware"] ]}
    (py "config")
  = Raise FileNotFoundError.
Proof. vm_compute. reflexivity. Qed.

(** C4, amended. For every configuration directory in which the mapping file
    of one of the four categories is absent: in [src/istar-uvl.py] loading
    that file yields the empty table and raises nothing, and the four tables,
    hence the classification of any objects, are those obtained when that file
    is present and empty; in [src/iStar-UVL.py] loading that file raises
    [FileNotFoundError], and so does loading the four tables. *)
Theorem missing_mapping_file `{Externals}
    (fs : files) (configDirectory category : str) :
  category ∈ categories →
  fs !! mappingPath configDirectory category = None →
  let present := <[mappingPath configDirectory category := []]> fs in
  V2.loadMappingFile fs (mappingPath configDirectory category) = Ok ∅
  ∧ (∃ tables, V2.loadAllMappingFiles fs configDirectory = Ok tables
               ∧ V2.loadAllMappingFiles present configDirectory = Ok tables)
  ∧ (∀ objectList,
       (tables ← V2.loadAllMappingFiles fs configDirectory;
        Ok (mapIStarObjectsToFeatures objectList tables))
       = (tables ← V2.loadAllMappingFiles present configDirectory;
          Ok (mapIStarObjectsToFeatures objectList tables)))
  ∧ V1.loadMappingFile fs (mappingPath configDirectory category) = Raise FileNotFoundError
  ∧ V1.loadAllMappingFiles fs configDirectory = Raise FileNotFoundError.
Proof.
  intros Hcategory Habsent present.
  assert (V2.loadAllMappingFiles present configDirectory
          = V2.loadAllMappingFiles fs configDirectory) as Hsame.
  { unfold V2.loadAllMappingFiles, present.
    by rewrite !V2_loadMappingFile_absent. }
  split_and!.
  - by rewrite V2_loadMappingFile_table, Habsent.
  - rewrite Hsame. unfold V2.loadAllMappingFiles.
    rewrite !V2_loadMappingFile_table. by eexists.
  - intros objectList. by rewrite Hsame.
  - by rewrite V1_loadMappingFile_table, Habsent.
  - unfold V1.loadAllMappingFiles. rewrite !V1_loadMappingFile_table.
    unfold categories in Hcategory.
    rewrite !elem_of_cons, elem_of_nil in Hcategory.
    destruct Hcategory as [->|[->|[->|[->|[]]]]]; rewrite Habsent;
      repeat (done || case_match).
Qed.

(** A directory without [backend.txt]. *)
Lemma missing_mapping_file_witness :
  let fs : files :=
    {[ py "config/algorithms.txt" := [py "aes => AES"];
       py "config/nfrs.txt" := [py "precise => Precision"];
       py "config/integration.txt" := [py "bus => Middleware"] ]} in
  ∃ tables,
    V2.loadAllMappingFiles (H := Sample.sample) fs (py "config") = Ok tables
    ∧ V2.loadAllMappingFiles (H := Sample.sample)
        (<[mappingPath (py "config") (py "backend") := []]> fs) (py "config") = Ok tables.
Proof.
  intros fs.
  refine (proj1 (proj2 (missing_mapping_file (H := Sample.sample)
                          fs (py "config") (py "backend") _ _))).
  - unfold categories. apply list_elem_of_further, list_elem_of_further, list_elem_of_here.
  - vm_compute. reflexivity.
Defined.

(** ** Normalized text *)

Section normal_form.
Implicit Types (s w cur : str) (ws : list str) (c : char).

Lemma split_from_words cur s :
  Forall (λ c, Py.isspace c = false) cur → Forall Spec.word (Py.split_from cur s).
Proof.
  revert cur. induction s as [|c s IH]; intros cur Hcur; simpl.
  - destruct cur; constructor; [done|constructor].
  - destruct (Py.isspace c) eqn:Hc.
    + destruct cur; [by apply IH|]. constructor; [done|]. by apply IH.
    + apply IH, Forall_app. by split; [|repeat constructor].
Qed.

Lemma split_words s : Forall Spec.word (Py.split s).
Proof. by apply split_from_words. Qed.

Lemma split_from_app w cur s :
  Forall (λ c, Py.isspace c = false) w →
  Py.split_from cur (w ++ s) = Py.split_from (cur ++ w) s.
Proof.
  intros Hw. revert cur. induction Hw as [|c w Hc _ IH]; intros cur; simpl.
  - by rewrite app_nil_r.
  - rewrite Hc, IH. by rewrite <-app_assoc.
Qed.

(** Splitting the joined words gives the words back. *)
Lemma split_join ws : Forall Spec.word ws → Py.split (Py.join (py " ") ws) = ws.
Proof.
  unfold Py.split. induction 1 as [|w ws [Hne Hw] Hws IH]; [done|].
  destruct ws as [|w' ws].
  - pose proof (split_from_app w [] [] Hw) as Hsplit.
    rewrite app_nil_r in Hsplit. simpl in *. rewrite Hsplit. by destruct w.
  - change (Py.join (py " ") (w :: w' :: ws))
      with (w ++ SPACE :: Py.join (py " ") (w' :: ws)).
    rewrite split_from_app by done. cbn [Py.split_from app].
    change (Py.isspace SPACE) with true. cbn iota. rewrite IH. by destruct w.
Qed.

Lemma join_head sep w ws :
  Spec.word w → ∃ c t, Py.join sep (w :: ws) = c :: t ∧ Py.isspace c = false.
Proof.
  intros [Hne Hw]. destruct w as [|c w]; [done|].
  apply Forall_cons in Hw as [Hc _].
  destruct ws; simpl; eauto.
Qed.

Lemma join_last sep ws :
  Forall Spec.word ws → ws ≠ [] →
  ∃ t c, Py.join sep ws = t ++ [c] ∧ Py.isspace c = false.
Proof.
  induction 1 as [|w ws [Hne Hw] Hws IH]; intros Hnil; [done|].
  destruct ws as [|w' ws].
  - simpl. destruct w as [|c w _] using rev_ind; [done|].
    apply Forall_app in Hw as [_ [Hc _]%Forall_cons]. eauto.
  - destruct IH as (t & c & Ht & Hc); [done|].
    change (Py.join sep (w :: w' :: ws)) with (w ++ sep ++ Py.join sep (w' :: ws)).
    rewrite Ht. exists (w ++ sep ++ t), c. by rewrite <-!app_assoc.
Qed.

Lemma rstrip_fixed t c : Py.isspace c = false → Py.rstrip (t ++ [c]) = t ++ [c].
Proof.
  intros Hc. unfold Py.rstrip. rewrite rev_app_distr. simpl.
  rewrite Hc. simpl. by rewrite rev_involutive.
Qed.

(** The joined words have no whitespace to strip. *)
Lemma strip_join ws : Forall Spec.word ws → Py.strip (Py.join (py " ") ws) = Py.join (py " ") ws.
Proof.
  intros Hws. destruct ws as [|w ws]; [done|].
  destruct (join_last (py " ") (w :: ws)) as (t & c & Ht & Hc); [done..|].
  destruct (join_head (py " ") w ws) as (c' & t' & Ht' & Hc').
  { by apply Forall_cons in Hws as [? _]. }
  unfold Py.strip. rewrite Ht' at 1. rewrite lstrip_fixed, <-Ht' by done.
  rewrite Ht. by apply rstrip_fixed.
Qed.

(** Whitespace normal form: text that [split] and [join] leave unchanged. *)
Lemma join_split_fixed s :
  let t := Py.join (py " ") (Py.split s) in
  Py.strip t = t ∧ Py.join (py " ") (Py.split t) = t.
Proof.
  cbv zeta. split.
  - apply strip_join, split_words.
  - by rewrite split_join by apply split_words.
Qed.

Context `{Externals}.

Lemma concat_characters s : concat ((λ c, [c]) <$> s) = s.
Proof. induction s as [|c s IH]; [done|]. rewrite fmap_cons. simpl. by f_equal. Qed.

(** [normalizeText] of [src/istar-uvl.py], with its loop read as a filter. *)
Lemma V2_normalizeText_steps s :
  V2.normalizeText (Some s) =
    Py.join (py " ")
      (Py.split (filter (λ c, negb (nonspacing_mark c) = true)
                        (normalize_NFD (lower (Py.strip s))))).
Proof.
  unfold V2.normalizeText.
  by rewrite join_empty, (foldl_append_if (λ c, negb (nonspacing_mark c)) (λ c, [c])),
    app_nil_l, concat_characters.
Qed.

Lemma filter_all {A} (P : A → Prop) `{∀ x, Decision (P x)} (l : list A) :
  (∀ x, x ∈ l → P x) → filter P l = l.
Proof.
  induction l as [|x l IH]; intros Hl; [done|].
  rewrite filter_cons, decide_True by (apply Hl; left).
  rewrite IH; [done|]. intros y Hy. apply Hl. by right.
Qed.

End normal_form.

(** C8. The claim fails for both scripts. In [src/iStar-UVL.py] Unidecode
    writes the two ideographs U+5317 U+4EB0 as ["Bei Jing "], after the text was
    lower-cased: the first pass returns ["Bei Jing"], the second
    ["bei jing"]. In [src/istar-uvl.py] dropping U+034F (a mark of category Mn
    and class 0) from U+1D16D U+034F U+1D165 leaves two marks of classes 226
    and 216 next to each other, which the second pass reorders. *)
Lemma normalizeText_not_idempotent :
  V1.normalizeText (H := Sample.sample)
    (Some (V1.normalizeText (H := Sample.sample) (Some [0x5317; 0x4EB0])))
  ≠ V1.normalizeText (H := Sample.sample) (Some [0x5317; 0x4EB0])
  ∧ V2.normalizeText (H := Sample.sample)
      (Some (V2.normalizeText (H := Sample.sample) (Some [0x1D16D; 0x34F; 0x1D165])))
    ≠ V2.normalizeText (H := Sample.sample) (Some [0x1D16D; 0x34F; 0x1D165]).
Proof. split; vm_compute; discriminate. Qed.

Example V1_normalizeText_ideographs :
  V1.normalizeText (H := Sample.sample) (Some [0x5317; 0x4EB0]) = py "Bei Jing"
  ∧ V1.normalizeText (H := Sample.sample) (Some (py "Bei Jing")) = py "bei jing".
Proof. split; reflexivity. Qed.

Example V2_normalizeText_marks :
  V2.normalizeText (H := Sample.sample) (Some [0x1D16D; 0x34F; 0x1D165]) = [0x1D16D; 0x1D165]
  ∧ V2.normalizeText (H := Sample.sample) (Some [0x1D16D; 0x1D165]) = [0x1D165; 0x1D16D].
Proof. split; reflexivity. Qed.

(** C8, amended. For every input string, the text [normalizeText] returns is
    in whitespace normal form ([strip] and [split]-then-[join] leave it
    unchanged), and normalizing it again returns it unchanged whenever the
    library steps leave it unchanged: lower-casing and Unidecode in
    [src/iStar-UVL.py]; lower-casing, canonical decomposition and the removal
    of nonspacing marks in [src/istar-uvl.py]. *)
Theorem normalizeText_fixed_point `{Externals} (inputText : str) :
  (let t := V1.normalizeText (Some inputText) in
   Py.strip t = t
   ∧ Py.join (py " ") (Py.split t) = t
   ∧ (lower t = t → unidecode t = t → V1.normalizeText (Some t) = t))
  ∧ (let t := V2.normalizeText (Some inputText) in
     Py.strip t = t
     ∧ Py.join (py " ") (Py.split t) = t
     ∧ (lower t = t → normalize_NFD t = t →
        (∀ c, c ∈ t → nonspacing_mark c = false) →
        V2.normalizeText (Some t) = t)).
Proof.
  split; cbv zeta.
  - destruct (join_split_fixed (unidecode (lower (Py.strip inputText))))
      as [Hstrip Hjoin].
    assert (V1.normalizeText (Some inputText)
            = Py.join (py " ") (Py.split (unidecode (lower (Py.strip inputText)))))
      as Ht by reflexivity.
    rewrite <-Ht in Hstrip, Hjoin.
    remember (V1.normalizeText (Some inputText)) as t eqn:Ht'.
    split_and!; [done..|].
    intros Hlower Hunidecode. unfold V1.normalizeText.
    by rewrite Hstrip, Hlower, Hunidecode.
  - pose proof (V2_normalizeText_steps inputText) as Ht.
    destruct (join_split_fixed
                (filter (λ c, negb (nonspacing_mark c) = true)
                        (normalize_NFD (lower (Py.strip inputText)))))
      as [Hstrip Hjoin].
    rewrite <-Ht in Hstrip, Hjoin.
    remember (V2.normalizeText (Some inputText)) as t eqn:Ht'.
    split_and!; [done..|].
    intros Hlower Hnfd Hmarks. rewrite V2_normalizeText_steps.
    rewrite Hstrip, Hlower, Hnfd, filter_all; [done|].
    intros c Hc. by rewrite Hmarks.
Qed.

(** ASCII text: the second pass changes nothing. *)
Lemma normalizeText_fixed_point_witness :
  V1.normalizeText (H := Sample.sample)
    (Some (V1.normalizeText (H := Sample.sample) (Some (py "  Uses   AES encryption "))))
  = V1.normalizeText (H := Sample.sample) (Some (py "  Uses   AES encryption ")).
Proof.
  apply (proj2 (proj2 (proj1 (normalizeText_fixed_point (H := Sample.sample)
                                (py "  Uses   AES encryption "))))); reflexivity.
Defined.

(** ** The examples of the specification, run on [Sample.sample] *)

Example py_split : Py.split (py "  ab  c d ") = [py "ab"; py "c"; py "d"].
Proof. reflexivity. Qed.

Example py_strip : Py.strip (py "  a b ") = py "a b".
Proof. reflexivity. Qed.

Example py_join : Py.join (py " ") [py "ab"; py "c"] = py "ab c".
Proof. reflexivity. Qed.

Example py_split_once :
  Py.split_once (py "=>") (py "a => b => c") = Some (py "a ", py " b => c").
Proof. reflexivity. Qed.

Example py_sorted :
  Py.sorted [py "b"; py "ab"; py "B"; py "a"] = [py "B"; py "a"; py "ab"; py "b"].
Proof. vm_compute. reflexivity. Qed.

Example re_sub_tags_markup :
  Re.sub_tags (py "<div>Fast<br/>GPU</div>") = py " Fast GPU ".
Proof. reflexivity. Qed.

Example re_sub_tags_malformed : Re.sub_tags (py "a<<b>>c<>d<e") = py "a >c<>d<e".
Proof. reflexivity. Qed.

Example normalizeText_both :
  V1.normalizeText (H := Sample.sample) (Some (py "  Uses   AES encryption "))
  = py "uses aes encryption"
  ∧ V2.normalizeText (H := Sample.sample) (Some (py "  Uses   AES encryption "))
    = py "uses aes encryption"
  ∧ V1.normalizeText (H := Sample.sample) None = py ""
  ∧ V2.normalizeText (H := Sample.sample) None = py "".
Proof. repeat split; reflexivity. Qed.

Example toIdentifier_defaults :
  V2.convertTextToUvlIdentifier (H := Sample.sample) None = py "RootGoal"
  ∧ V2.convertTextToUvlIdentifier (H := Sample.sample) (Some (py "")) = py "RootGoal"
  ∧ V1.formatRootFeatureName (H := Sample.sample) None = py "RootGoal"
  ∧ V1.formatRootFeatureName (H := Sample.sample) (Some (py "")) = py "RootGoal"
  ∧ V1.formatRootFeatureName (H := Sample.sample) (Some (py "!!!")) = py "RootGoal".
Proof. repeat split; reflexivity. Qed.

Example toIdentifier_words :
  V2.convertTextToUvlIdentifier (H := Sample.sample) (Some (py "protein folding"))
  = py "ProteinFolding"
  ∧ V1.formatRootFeatureName (H := Sample.sample) (Some (py "protein folding"))
    = py "ProteinFolding"
  ∧ V2.convertTextToUvlIdentifier (H := Sample.sample) (Some (py "Chemical_Reaction 2"))
    = py "ChemicalReaction2"
  ∧ V1.formatRootFeatureName (H := Sample.sample) (Some (py "Chemical_Reaction 2"))
    = py "ChemicalReaction2".
Proof. repeat split; reflexivity. Qed.

Example classify_aes :
  mapIStarObjectsToFeatures
    [{| obj_type := py "task"; obj_label := py "Uses AES encryption";
        obj_norm := py "uses aes encryption" |}]
    {| algorithms := {[py "rsa" := py "RSA"; py "aes" := py "AES"]};
       nfrs := ∅; backend := {[py "gpu" := py "Hardware"]}; integration := ∅ |}
  = ([py "AES"], [], [py "Hardware"], []).
Proof. vm_compute. reflexivity. Qed.

Example render_without_constraints :
  buildUvlModel (py "Test") [] [py "Fast"] [py "Hardware"] []
  = py "features {" ++ NL ++ py "  Test {" ++ NL ++ py "    Backend {" ++ NL
    ++ py "      Hardware" ++ NL ++ py "    }" ++ NL ++ py "    Fast" ++ NL
    ++ py "  }" ++ NL ++ py "}" ++ NL.
Proof. reflexivity. Qed.

(** * Further properties of the code *)

(** ** Sanitized labels *)

Section sanitized.
Context `{Externals}.
Implicit Types (s t : str) (c : char).

Lemma rstrip_idemp s : Py.rstrip (Py.rstrip s) = Py.rstrip s.
Proof. unfold Py.rstrip. by rewrite rev_involutive, lstrip_idemp. Qed.

Lemma lstrip_rstrip_lstrip s : Py.lstrip (Py.rstrip (Py.lstrip s)) = Py.rstrip (Py.lstrip s).
Proof.
  destruct (Py.lstrip s) as [|c t] eqn:Hl; [done|].
  apply lstrip_head in Hl.
  destruct (rstrip_spec (c :: t)) as (b & Hb & Hspaces).
  destruct (Py.rstrip (c :: t)) as [|c' t'] eqn:Hr.
  - simpl in Hb. subst b. apply Forall_cons in Hspaces as [Hc _]. congruence.
  - injection Hb as <- _. by apply lstrip_fixed.
Qed.

(** Stripping twice is stripping once. *)
Lemma strip_idemp s : Py.strip (Py.strip s) = Py.strip s.
Proof. unfold Py.strip. by rewrite lstrip_rstrip_lstrip, rstrip_idemp. Qed.

Lemma lstrip_length s : (length (Py.lstrip s) ≤ length s)%nat.
Proof.
  destruct (lstrip_spec s) as (a & Hs & _). rewrite Hs at 2.
  rewrite length_app. lia.
Qed.

Lemma strip_length s : (length (Py.strip s) ≤ length s)%nat.
Proof.
  destruct (strip_spec s) as (a & b & Hs & _). rewrite Hs at 2.
  rewrite !length_app. lia.
Qed.

Lemma sub_tags_length s : (length (Re.sub_tags s) ≤ length s)%nat.
Proof.
  remember (length s) as k eqn:Hk.
  revert s Hk. induction k as [k IH] using lt_wf_ind. intros s ->.
  destruct s as [|c t]; [done|]. rewrite sub_tags_cons.
  destruct (Re.match_tag (c :: t)) as [rest|] eqn:Hm.
  - apply match_tag_shorter in Hm as [Hlen _].
    specialize (IH (length rest) Hlen rest eq_refl). simpl in *. lia.
  - specialize (IH (length t) ltac:(simpl; lia) t eq_refl). simpl. lia.
Qed.

(** Text without a match is left as it is. *)
Lemma sub_tags_fixed s : Re.search_tag s = false → Re.sub_tags s = s.
Proof.
  induction s as [|c t IH]; [done|]. cbn [Re.search_tag]. rewrite sub_tags_cons.
  destruct (Re.match_tag (c :: t)); [done|]. intros Ht. by rewrite IH.
Qed.

Lemma search_tag_no_lt s : LT ∉ s → Re.search_tag s = false.
Proof.
  induction s as [|c t IH]; [done|]. intros [Hc Ht]%not_elem_of_cons.
  cbn [Re.search_tag Re.match_tag].
  destruct (c =? LT) eqn:Heq; [apply N.eqb_eq in Heq; congruence|]. by apply IH.
Qed.

Lemma search_tag_false s : Re.search_tag s = false ↔ ¬ Spec.tagged s.
Proof.
  unfold Spec.tagged. rewrite <-search_tag_true. by destruct (Re.search_tag s).
Qed.

Lemma tagged_strip s : Spec.tagged (Py.strip s) → Spec.tagged s.
Proof.
  intros (a & m & b & Hs & Hm). destruct (strip_spec s) as (a' & b' & Hs' & _).
  exists (a' ++ a), m, (b ++ b'). split; [|done].
  rewrite Hs', Hs. by rewrite <-!app_assoc.
Qed.

End sanitized.

(** X1. The text [cleanLabelText] returns has no whitespace at either end and
    is never longer than the decoded text; when the decoded text holds no
    ["<"], it is the decoded text stripped, with nothing else removed. *)
Theorem cleanLabelText_shape `{Externals} (rawText : str) :
  let cleaned := cleanLabelText (Some rawText) in
  Py.strip cleaned = cleaned
  ∧ (length cleaned ≤ length (unescape rawText))%nat
  ∧ (LT ∉ unescape rawText → cleaned = Py.strip (unescape rawText)).
Proof.
  cbv zeta. unfold cleanLabelText. split_and!.
  - apply strip_idemp.
  - etrans; [apply strip_length|apply sub_tags_length].
  - intros Hlt. by rewrite sub_tags_fixed by (by apply search_tag_no_lt).
Qed.

(** X2. Sanitizing a sanitized label again returns it unchanged, for every
    label that [html.unescape] leaves unchanged (a label with no entity left
    to decode): the second pass finds no tag and no whitespace to strip. *)
Theorem cleanLabelText_again `{Externals} (rawText : option str) :
  unescape (cleanLabelText rawText) = cleanLabelText rawText →
  cleanLabelText (Some (cleanLabelText rawText)) = cleanLabelText rawText.
Proof.
  intros Hplain. unfold cleanLabelText at 1. rewrite Hplain.
  assert (Re.search_tag (cleanLabelText rawText) = false) as Hclean.
  { apply search_tag_false. destruct rawText as [rawText|]; simpl.
    - intros Htag%tagged_strip. apply search_tag_false in Htag; [done|].
      apply search_tag_sub_tags.
    - intros (a & m & b & Hnil & body & -> & _). by destruct a. }
  rewrite sub_tags_fixed by done.
  destruct rawText as [rawText|]; [apply strip_idemp|done].
Qed.

Lemma cleanLabelText_again_witness :
  cleanLabelText (H := Sample.sample)
    (Some (cleanLabelText (H := Sample.sample) (Some (py " <b>Fold</b> proteins <<i>> "))))
  = cleanLabelText (H := Sample.sample) (Some (py " <b>Fold</b> proteins <<i>> ")).
Proof.
  apply (cleanLabelText_again (H := Sample.sample)
           (Some (py " <b>Fold</b> proteins <<i>> "))).
  reflexivity.
Defined.

(** ** Spacing of normalized text *)

Section spacing.
Implicit Types (s w : str) (ws : list str) (c : char).

(** Where a character of [l1 ++ x :: l2] can be. *)
Lemma app_cons_cases {A} (l1 l2 a b : list A) (x c : A) :
  l1 ++ x :: l2 = a ++ c :: b →
  (∃ k, l1 = a ++ c :: k ∧ b = k ++ x :: l2)
  ∨ (a = l1 ∧ c = x ∧ b = l2)
  ∨ (∃ k, a = l1 ++ x :: k ∧ l2 = k ++ c :: b).
Proof.
  revert a. induction l1 as [|y l1 IH]; intros [|z a] Heq; simplify_eq/=.
  - by right; left.
  - right; right. by exists a.
  - left. by exists l1.
  - destruct (IH a) as [(k & -> & ->)|[(-> & -> & ->)|(k & -> & ->)]]; [done|..].
    + left. by exists k.
    + by right; left.
    + right; right. by exists k.
Qed.

Lemma join_words_single_spaced ws :
  Forall Spec.word ws → Spec.single_spaced (Py.join (py " ") ws).
Proof.
  induction 1 as [|w ws [Hne Hw] Hws IH]; intros a c b Heq Hc.
  { by destruct a. }
  destruct ws as [|w' ws].
  - simpl in Heq. subst w. apply Forall_app in Hw as [_ [Hc' _]%Forall_cons].
    congruence.
  - change (Py.join (py " ") (w :: w' :: ws))
      with (w ++ SPACE :: Py.join (py " ") (w' :: ws)) in Heq.
    apply app_cons_cases in Heq as [(k & -> & ->)|[(-> & -> & ->)|(k & -> & Hk)]].
    + apply Forall_app in Hw as [_ [Hc' _]%Forall_cons]. congruence.
    + split; [done|]. split.
      * destruct w as [|x w _] using rev_ind; [done|].
        apply Forall_app in Hw as [_ [Hx _]%Forall_cons]. eauto.
      * destruct (join_head (py " ") w' ws) as (y & b' & -> & Hy); [|eauto].
        by apply Forall_cons in Hws as [? _].
    + destruct (IH k c b Hk Hc) as (-> & Hleft & Hright).
      split; [done|]. split; [|done].
      destruct Hleft as (a' & x & -> & Hx).
      exists (w ++ SPACE :: a'), x. by rewrite <-app_assoc.
Qed.

End spacing.

(** X3. In the text [normalizeText] returns, in both scripts, every whitespace
    character is a single space with a character that is not whitespace on
    each side: no tab or newline is left, no run of spaces, and no space at
    either end. *)
Theorem normalizeText_single_spaced `{Externals} (inputText : str) :
  Spec.single_spaced (V1.normalizeText (Some inputText))
  ∧ Spec.single_spaced (V2.normalizeText (Some inputText)).
Proof.
  split.
  - apply join_words_single_spaced, split_words.
  - rewrite V2_normalizeText_steps. apply join_words_single_spaced, split_words.
Qed.

(** ** Parsed objects *)

Section parsed.
Context `{Externals}.





End parsed.


(** ** The classified lists *)

Section classified.
Implicit Types (found : gset str) (table : gmap str str) (feature f : str).

(** What one branch of [applyDefaultValues] holds. *)
Lemma default_member found table feature f :
  f ∈ (if bool_decide (size found = 0%nat)
          && bool_decide (feature ∈ (map_to_list table).*2)
       then found ∪ {[feature]} else found)
  ↔ f ∈ found ∨ (found = ∅ ∧ f = feature ∧ Spec.declares table feature).
Proof.
  assert (size found = 0%nat ↔ found = ∅) as Hsize.
  { rewrite size_empty_iff. apply leibniz_equiv_iff. }
  rewrite <-values_declares, <-Hsize.
  repeat case_bool_decide; simpl; set_solver.
Qed.

Lemma triggered_declares (objects : list DiagramObject) table feature :
  Spec.triggered objects table feature → Spec.declares table feature.
Proof. intros (keyword & _ & Hk & _). by exists keyword. Qed.

(** The sets of the loop, as sets. *)
Lemma scanObjects_members (objects : list DiagramObject) (tables : Mappings) :
  match scanObjects objects tables with
  | (a, n, b, i) =>
      (∀ f, f ∈ a ↔ Spec.triggered objects (algorithms tables) f)
      ∧ (∀ f, f ∈ n ↔ Spec.triggered objects (nfrs tables) f)
      ∧ (∀ f, f ∈ b ↔ Spec.triggered objects (backend tables) f)
      ∧ (∀ f, f ∈ i ↔ Spec.triggered objects (integration tables) f)
  end.
Proof.
  pose proof (scan_objects_from objects tables ∅ ∅ ∅ ∅) as Hscan.
  unfold scanObjects. destruct (foldl _ _ objects) as [[[a n] b] i].
  destruct Hscan as (Ha & Hn & Hb & Hi).
  split_and!; intros f; [rewrite Ha|rewrite Hn|rewrite Hb|rewrite Hi]; set_solver.
Qed.

(** The loop sees the objects only through what they trigger. *)
Lemma scanObjects_ext (objects1 objects2 : list DiagramObject) (tables : Mappings) :
  (∀ table f, Spec.triggered objects1 table f ↔ Spec.triggered objects2 table f) →
  scanObjects objects1 tables = scanObjects objects2 tables.
Proof.
  intros Hsame.
  pose proof (scanObjects_members objects1 tables) as H1.
  pose proof (scanObjects_members objects2 tables) as H2.
  destruct (scanObjects objects1 tables) as [[[a1 n1] b1] i1].
  destruct (scanObjects objects2 tables) as [[[a2 n2] b2] i2].
  destruct H1 as (Ha1 & Hn1 & Hb1 & Hi1), H2 as (Ha2 & Hn2 & Hb2 & Hi2).
  repeat f_equal; apply set_eq; intros f.
  - by rewrite Ha1, Ha2.
  - by rewrite Hn1, Hn2.
  - by rewrite Hb1, Hb2.
  - by rewrite Hi1, Hi2.
Qed.

(** The four lists returned, defaults included. *)
Lemma classification_members (objects : list DiagramObject) (tables : Mappings) :
  match mapIStarObjectsToFeatures objects tables with
  | (a, n, b, i) =>
      (∀ f, f ∈ a ↔ Spec.triggered objects (algorithms tables) f)
      ∧ (∀ f, f ∈ n ↔ Spec.triggered objects (nfrs tables) f)
      ∧ (∀ f, f ∈ b ↔
           Spec.triggered objects (backend tables) f
           ∨ (Spec.silent objects (backend tables)
              ∧ f = py "Hardware" ∧ Spec.declares (backend tables) (py "Hardware")))
      ∧ (∀ f, f ∈ i ↔
           Spec.triggered objects (integration tables) f
           ∨ (Spec.silent objects (integration tables)
              ∧ f = py "Middleware"
              ∧ Spec.declares (integration tables) (py "Middleware")))
  end.
Proof.
  unfold mapIStarObjectsToFeatures.
  pose proof (scanObjects_members objects tables) as Hscan.
  destruct (scanObjects objects tables) as [[[a0 n0] b0] i0].
  destruct Hscan as (Ha & Hn & Hb & Hi).
  unfold applyDefaultValues, Spec.silent.
  split_and!; intros f; rewrite sorted_elements; [done|done|..].
  - rewrite default_member, Hb.
    assert (b0 = ∅ ↔ ∀ g, ¬ Spec.triggered objects (backend tables) g) as ->; [|done].
    split; [intros -> g; rewrite <-Hb; set_solver|].
    intros Hnone. apply set_eq. intros g. rewrite Hb. set_solver.
  - rewrite default_member, Hi.
    assert (i0 = ∅ ↔ ∀ g, ¬ Spec.triggered objects (integration tables) g) as ->; [|done].
    split; [intros -> g; rewrite <-Hi; set_solver|].
    intros Hnone. apply set_eq. intros g. rewrite Hi. set_solver.
Qed.

End classified.

(** X5. The classification depends on the objects only through the set of
    their normalized labels: two object lists with the same [norm] texts, in
    any order and with any repetitions, types and raw labels, give the same
    four lists. *)
Theorem classification_order_independent
    (objects1 objects2 : list DiagramObject) (tables : Mappings) :
  (∀ txt, txt ∈ obj_norm <$> objects1 ↔ txt ∈ obj_norm <$> objects2) →
  mapIStarObjectsToFeatures objects1 tables = mapIStarObjectsToFeatures objects2 tables.
Proof.
  intros Hnorms. unfold mapIStarObjectsToFeatures.
  rewrite (scanObjects_ext objects1 objects2); [done|].
  assert (∀ o1 o2 table f,
            (∀ txt, txt ∈ obj_norm <$> o1 → txt ∈ obj_norm <$> o2) →
            Spec.triggered o1 table f → Spec.triggered o2 table f) as Hmono.
  { intros o1 o2 table f Hsub (keyword & obj & Hk & Hobj & Hsubstr).
    assert (obj_norm obj ∈ obj_norm <$> o2) as (obj' & Heq & Hobj')%list_elem_of_fmap.
    { apply Hsub. by apply list_elem_of_fmap_2. }
    exists keyword, obj'. by rewrite <-Heq. }
  intros table f. split; apply Hmono; intros txt; apply Hnorms.
Qed.

(** The same two labels, swapped, one repeated, under other types. *)
Lemma classification_order_independent_witness :
  let tables :=
    {| algorithms := {[py "aes" := py "AES"]}; nfrs := {[py "fast" := py "Speed"]};
       backend := {[py "gpu" := py "Hardware"]}; integration := ∅ |} in
  let o1 := {| obj_type := py "goal"; obj_label := py "Fast"; obj_norm := py "fast" |} in
  let o2 := {| obj_type := py "task"; obj_label := py "AES"; obj_norm := py "uses aes" |} in
  let o3 := {| obj_type := py ""; obj_label := py ""; obj_norm := py "fast" |} in
  mapIStarObjectsToFeatures [o1; o2] tables = mapIStarObjectsToFeatures [o2; o3; o2] tables.
Proof.
  intros tables o1 o2 o3.
  apply (classification_order_independent [o1; o2] [o2; o3; o2] tables).
  intros txt. simpl. rewrite !elem_of_cons, !elem_of_nil. tauto.
Defined.

(** X6. [mapIStarObjectsToFeatures] never returns a feature that its
    category's table does not declare as a value, the defaults included; and
    the list of backends (of integrations) is not empty whenever the backend
    (integration) table declares ["Hardware"] (["Middleware"]). *)
Theorem classification_within_tables
    (objectList : list DiagramObject) (mappingDictionaries : Mappings) :
  match mapIStarObjectsToFeatures objectList mappingDictionaries with
  | (algos, nfrs_, backs, integrs) =>
      (∀ f, f ∈ algos → Spec.declares (algorithms mappingDictionaries) f)
      ∧ (∀ f, f ∈ nfrs_ → Spec.declares (nfrs mappingDictionaries) f)
      ∧ (∀ f, f ∈ backs → Spec.declares (backend mappingDictionaries) f)
      ∧ (∀ f, f ∈ integrs → Spec.declares (integration mappingDictionaries) f)
      ∧ (Spec.declares (backend mappingDictionaries) (py "Hardware") → backs ≠ [])
      ∧ (Spec.declares (integration mappingDictionaries) (py "Middleware") → integrs ≠ [])
  end.
Proof.
  pose proof (classification_members objectList mappingDictionaries) as Hm.
  pose proof (scanObjects_members objectList mappingDictionaries) as Hs.
  destruct (mapIStarObjectsToFeatures _ _) as [[[a n] b] i].
  destruct (scanObjects _ _) as [[[a0 n0] b0] i0].
  destruct Hm as (Ha & Hn & Hb & Hi), Hs as (_ & _ & Hb0 & Hi0).
  split_and!.
  - intros f ?%Ha. by eapply triggered_declares.
  - intros f ?%Hn. by eapply triggered_declares.
  - intros f [?|(_ & -> & ?)]%Hb; [by eapply triggered_declares|done].
  - intros f [?|(_ & -> & ?)]%Hi; [by eapply triggered_declares|done].
  - intros Hd ->. destruct (decide (b0 = ∅)) as [->|Hne].
    + assert (py "Hardware" ∈ @nil str) as Hin; [|by apply elem_of_nil in Hin].
      apply Hb. right. split; [|done]. intros g Hg%Hb0. set_solver.
    + apply set_choose_L in Hne as [g Hg]. apply Hb0 in Hg.
      assert (g ∈ @nil str) as Hin; [|by apply elem_of_nil in Hin].
      apply Hb. by left.
  - intros Hd ->. destruct (decide (i0 = ∅)) as [->|Hne].
    + assert (py "Middleware" ∈ @nil str) as Hin; [|by apply elem_of_nil in Hin].
      apply Hi. right. split; [|done]. intros g Hg%Hi0. set_solver.
    + apply set_choose_L in Hne as [g Hg]. apply Hi0 in Hg.
      assert (g ∈ @nil str) as Hin; [|by apply elem_of_nil in Hin].
      apply Hi. by left.
Qed.

(** X7. After the defaults, the list of backends holds a feature exactly when
    a backend keyword triggers it, or when no backend keyword occurs in any
    object, the feature is ["Hardware"] and the table declares it; likewise
    for the integrations and ["Middleware"]. A default is thus dropped as soon
    as any keyword of its category matches. *)
Theorem classification_with_defaults
    (objectList : list DiagramObject) (mappingDictionaries : Mappings) :
  match mapIStarObjectsToFeatures objectList mappingDictionaries with
  | (algos, nfrs_, backs, integrs) =>
      (∀ f, f ∈ backs ↔
         Spec.triggered objectList (backend mappingDictionaries) f
         ∨ (Spec.silent objectList (backend mappingDictionaries)
            ∧ f = py "Hardware"
            ∧ Spec.declares (backend mappingDictionaries) (py "Hardware")))
      ∧ (∀ f, f ∈ integrs ↔
           Spec.triggered objectList (integration mappingDictionaries) f
           ∨ (Spec.silent objectList (integration mappingDictionaries)
              ∧ f = py "Middleware"
              ∧ Spec.declares (integration mappingDictionaries) (py "Middleware")))
  end.
Proof.
  pose proof (classification_members objectList mappingDictionaries) as Hm.
  destruct (mapIStarObjectsToFeatures _ _) as [[[a n] b] i].
  by destruct Hm as (_ & _ & Hb & Hi).
Qed.

(** X8. Adding objects to a diagram never removes an algorithm or an NFR from
    the classification; it can remove only the default from the backends or
    from the integrations. *)
Theorem classification_grows
    (objectList more : list DiagramObject) (mappingDictionaries : Mappings) :
  match mapIStarObjectsToFeatures objectList mappingDictionaries,
        mapIStarObjectsToFeatures (objectList ++ more) mappingDictionaries with
  | (algos, nfrs_, backs, integrs), (algos', nfrs', backs', integrs') =>
      (∀ f, f ∈ algos → f ∈ algos')
      ∧ (∀ f, f ∈ nfrs_ → f ∈ nfrs')
      ∧ (∀ f, f ∈ backs → f ∈ backs' ∨ f = py "Hardware")
      ∧ (∀ f, f ∈ integrs → f ∈ integrs' ∨ f = py "Middleware")
  end.
Proof.
  pose proof (classification_members objectList mappingDictionaries) as Hm.
  pose proof (classification_members (objectList ++ more) mappingDictionaries) as Hm'.
  destruct (mapIStarObjectsToFeatures objectList _) as [[[a n] b] i].
  destruct (mapIStarObjectsToFeatures (objectList ++ more) _) as [[[a' n'] b'] i'].
  destruct Hm as (Ha & Hn & Hb & Hi), Hm' as (Ha' & Hn' & Hb' & Hi').
  assert (∀ table f, Spec.triggered objectList table f →
                     Spec.triggered (objectList ++ more) table f) as Hmore.
  { intros table f (keyword & obj & Hk & Hobj & Hsub).
    exists keyword, obj. split_and!; [done| |done]. apply elem_of_app. by left. }
  split_and!.
  - intros f ?%Ha. by apply Ha', Hmore.
  - intros f ?%Hn. by apply Hn', Hmore.
  - intros f [?|(_ & -> & _)]%Hb; [left|by right]. by apply Hb'; left; apply Hmore.
  - intros f [?|(_ & -> & _)]%Hi; [left|by right]. by apply Hi'; left; apply Hmore.
Qed.

Example classification_drops_default :
  let tables :=
    {| algorithms := ∅; nfrs := ∅;
       backend := {[py "gpu" := py "Hardware"; py "aws" := py "Cloud"]};
       integration := ∅ |} in
  let obj := {| obj_type := py "task"; obj_label := py "AWS"; obj_norm := py "runs on aws" |} in
  mapIStarObjectsToFeatures [] tables = ([], [], [py "Hardware"], [])
  ∧ mapIStarObjectsToFeatures [obj] tables = ([], [], [py "Cloud"], []).
Proof. split; vm_compute; reflexivity. Qed.

(** X9. For a diagram without objects the classification returns no algorithm
    and no NFR, whatever the tables hold, and for backends and integrations
    exactly the default when the table declares it, nothing otherwise. *)
Theorem classification_of_empty_diagram (mappingDictionaries : Mappings) :
  match mapIStarObjectsToFeatures [] mappingDictionaries with
  | (algos, nfrs_, backs, integrs) =>
      algos = [] ∧ nfrs_ = []
      ∧ (Spec.declares (backend mappingDictionaries) (py "Hardware")
         → backs = [py "Hardware"])
      ∧ (¬ Spec.declares (backend mappingDictionaries) (py "Hardware") → backs = [])
      ∧ (Spec.declares (integration mappingDictionaries) (py "Middleware")
         → integrs = [py "Middleware"])
      ∧ (¬ Spec.declares (integration mappingDictionaries) (py "Middleware")
         → integrs = [])
  end.
Proof.
  unfold mapIStarObjectsToFeatures, scanObjects, applyDefaultValues. cbn [foldl].
  destruct (default_branch ∅ (backend mappingDictionaries) (py "Hardware"))
    as (Hb1 & Hb2 & _).
  destruct (default_branch ∅ (integration mappingDictionaries) (py "Middleware"))
    as (Hi1 & Hi2 & _).
  cbv zeta in Hb1, Hb2, Hi1, Hi2. rewrite elements_empty.
  split_and!; try done.
  - intros Hd. rewrite Hb1 by done. by rewrite elements_singleton.
  - intros Hd. rewrite Hb2 by done. by rewrite elements_empty.
  - intros Hd. rewrite Hi1 by done. by rewrite elements_singleton.
  - intros Hd. rewrite Hi2 by done. by rewrite elements_empty.
Qed.

(** X10. A table entry whose keyword is the empty string fires for every
    object: as soon as the diagram has one object, its feature is in the
    category's list, whatever the labels are. *)
Theorem empty_keyword_always_matches
    (objectList : list DiagramObject) (mappingDictionaries : Mappings) :
  objectList ≠ [] →
  match mapIStarObjectsToFeatures objectList mappingDictionaries with
  | (algos, nfrs_, backs, integrs) =>
      (∀ f, algorithms mappingDictionaries !! [] = Some f → f ∈ algos)
      ∧ (∀ f, nfrs mappingDictionaries !! [] = Some f → f ∈ nfrs_)
      ∧ (∀ f, backend mappingDictionaries !! [] = Some f → f ∈ backs)
      ∧ (∀ f, integration mappingDictionaries !! [] = Some f → f ∈ integrs)
  end.
Proof.
  intros Hne.
  pose proof (classification_members objectList mappingDictionaries) as Hm.
  destruct (mapIStarObjectsToFeatures _ _) as [[[a n] b] i].
  destruct Hm as (Ha & Hn & Hb & Hi).
  assert (∀ table f, table !! [] = Some f → Spec.triggered objectList table f) as Hall.
  { intros table f Hf. destruct objectList as [|obj rest]; [done|].
    exists [], obj. split_and!; [done|left|]. by exists [], (obj_norm obj). }
  split_and!; intros f Hf%Hall.
  - by apply Ha.
  - by apply Hn.
  - apply Hb. by left.
  - apply Hi. by left.
Qed.

(** The line ["=> Quantum"] gives the empty keyword. *)
Lemma empty_keyword_always_matches_witness :
  py "Quantum" ∈
    (mapIStarObjectsToFeatures
       [{| obj_type := py "task"; obj_label := py "Anything";
           obj_norm := py "anything" |}]
       {| algorithms := {[py "" := py "Quantum"]}; nfrs := ∅;
          backend := ∅; integration := ∅ |}).1.1.1.
Proof.
  refine (proj1 (empty_keyword_always_matches
                   [{| obj_type := py "task"; obj_label := py "Anything";
                       obj_norm := py "anything" |}]
                   {| algorithms := {[py "" := py "Quantum"]}; nfrs := ∅;
                      backend := ∅; integration := ∅ |} _) (py "Quantum") _).
  - discriminate.
  - vm_compute. reflexivity.
Defined.

Example empty_keyword_from_line :
  V2.loadMappingFile (H := Sample.sample)
    {[py "config/algorithms.txt" := [py "=> Quantum"]]} (py "config/algorithms.txt")
  = Ok {[py "" := py "Quantum"]}.
Proof. vm_compute. reflexivity. Qed.

(** X11. [applyDefaultValues] is idempotent: applied to the two sets it
    returns, it returns them unchanged. *)
Theorem applyDefaultValues_idempotent
    (backs integrs : gset str) (mappingDictionaries : Mappings) :
  let result := applyDefaultValues backs integrs mappingDictionaries in
  applyDefaultValues result.1 result.2 mappingDictionaries = result.
Proof.
  assert (∀ (found : gset str) (table : gmap str str) feature,
            let once :=
              if bool_decide (size found = 0%nat)
                 && bool_decide (feature ∈ (map_to_list table).*2)
              then found ∪ {[feature]} else found in
            (if bool_decide (size once = 0%nat)
                && bool_decide (feature ∈ (map_to_list table).*2)
             then once ∪ {[feature]} else once) = once) as Hbranch.
  { intros found table feature. cbv zeta.
    destruct (bool_decide (size found = 0%nat)) eqn:Hsize;
      destruct (bool_decide (feature ∈ (map_to_list table).*2)) eqn:Hin; simpl;
      rewrite ?Hsize, ?Hin; simpl; try done.
    rewrite bool_decide_eq_false_2; [done|].
    rewrite size_empty_iff. set_solver. }
  cbv zeta. unfold applyDefaultValues. cbn [fst snd]. by rewrite !Hbranch.
Qed.

(** ** Identifiers of [src/istar-uvl.py] *)

Section separators.
Context `{Externals}.
Implicit Types (text a b : str) (c : char).

Lemma split_blank text : Forall (λ c, Py.isspace c = true) text → Py.split text = [].
Proof.
  unfold Py.split. induction 1 as [|c text Hc _ IH]; [done|]. simpl. by rewrite Hc.
Qed.

Lemma separated_separator c :
  char_isalnum c = false ∨ c = UNDERSCORE ∨ c = SPACE → Spec.separated c = SPACE.
Proof.
  unfold Spec.separated. intros [Hc|[->| ->]].
  - rewrite Hc. simpl. destruct (c =? SPACE) eqn:Hs.
    + apply N.eqb_eq in Hs as ->. done.
    + destruct (c =? UNDERSCORE) eqn:Hu; simpl; [by rewrite Hu|done].
  - rewrite N.eqb_refl, orb_true_r. by rewrite N.eqb_refl.
  - rewrite N.eqb_refl, orb_true_r. done.
Qed.

Lemma toIdentifier_separated text :
  text ≠ [] →
  Spec.toIdentifier (Some text) =
    match filter (λ w, isalnum w = true) (Py.split (Spec.separated <$> text)) with
    | [] => py "RootGoal"
    | kept => concat (capitalize <$> kept)
    end.
Proof.
  destruct text as [|c text]; [done|]. intros _. unfold Spec.toIdentifier.
  rewrite <-list_fmap_compose.
  change (Py.split (_ <$> c :: text)) with (Py.split (Spec.separated <$> c :: text)).
  by destruct (filter _ _).
Qed.

End separators.

(** X12. [convertTextToUvlIdentifier] returns ["RootGoal"] for every text that
    holds no alphanumeric character, whatever its punctuation, spaces and
    underscores. *)
Theorem convertTextToUvlIdentifier_no_alnum `{Externals} (inputText : str) :
  (∀ c, c ∈ inputText → char_isalnum c = false) →
  V2.convertTextToUvlIdentifier (Some inputText) = py "RootGoal".
Proof.
  intros Hnone. rewrite convertTextToUvlIdentifier_steps.
  destruct (decide (inputText = [])) as [->|Hne]; [done|].
  rewrite toIdentifier_separated by done.
  rewrite split_blank; [done|].
  apply Forall_fmap, Forall_forall. intros c Hc. simpl.
  by rewrite separated_separator by (left; by apply Hnone).
Qed.

Lemma convertTextToUvlIdentifier_no_alnum_witness :
  V2.convertTextToUvlIdentifier (H := Sample.sample) (Some (py "-- _ (?) --"))
  = py "RootGoal".
Proof.
  apply (convertTextToUvlIdentifier_no_alnum (H := Sample.sample) (py "-- _ (?) --")).
  intros c Hc. apply Forall_forall with (x := c) (l := py "-- _ (?) --"); [|done].
  vm_compute. repeat constructor.
Defined.

(** X13. In [convertTextToUvlIdentifier] a character that is not alphanumeric,
    or an underscore, separates words exactly as a space does: replacing it
    by a space does not change the identifier. *)
Theorem convertTextToUvlIdentifier_separator `{Externals} (a b : str) (c : char) :
  char_isalnum c = false ∨ c = UNDERSCORE →
  V2.convertTextToUvlIdentifier (Some (a ++ c :: b))
  = V2.convertTextToUvlIdentifier (Some (a ++ SPACE :: b)).
Proof.
  intros Hc. rewrite !convertTextToUvlIdentifier_steps.
  rewrite !toIdentifier_separated by (by destruct a).
  rewrite !fmap_app, !fmap_cons, (separated_separator c) by tauto.
  by rewrite (separated_separator SPACE) by tauto.
Qed.

Lemma convertTextToUvlIdentifier_separator_witness :
  V2.convertTextToUvlIdentifier (H := Sample.sample) (Some (py "protein" ++ 45 :: py "folding"))
  = V2.convertTextToUvlIdentifier (H := Sample.sample)
      (Some (py "protein" ++ SPACE :: py "folding")).
Proof.
  apply (convertTextToUvlIdentifier_separator (H := Sample.sample)
           (py "protein") (py "folding") 45).
  left. reflexivity.
Defined.

(** X14. [convertTextToUvlIdentifier] of one alphanumeric word (no whitespace,
    no underscore, at least one character) is that word capitalized. *)
Theorem convertTextToUvlIdentifier_one_word `{Externals} (inputText : str) :
  inputText ≠ [] →
  (∀ c, c ∈ inputText →
        char_isalnum c = true ∧ Py.isspace c = false ∧ c ≠ UNDERSCORE) →
  V2.convertTextToUvlIdentifier (Some inputText) = capitalize inputText.
Proof.
  intros Hne Hword. rewrite convertTextToUvlIdentifier_steps.
  rewrite toIdentifier_separated by done.
  assert (Spec.separated <$> inputText = inputText) as ->.
  { rewrite <-(list_fmap_id inputText) at 2. apply list_fmap_ext.
    intros i c Hi.
    assert (c ∈ inputText) as (Halnum & _ & Hu)%Hword
      by (apply list_elem_of_lookup; eauto).
    unfold Spec.separated. rewrite Halnum. simpl. by apply N.eqb_neq in Hu as ->. }
  assert (Py.split inputText = [inputText]) as ->.
  { unfold Py.split. rewrite <-(app_nil_r inputText) at 1.
    rewrite split_from_app.
    - simpl. by destruct inputText.
    - apply Forall_forall. intros c Hc. by apply Hword. }
  assert (isalnum inputText = true) as Hall.
  { unfold isalnum. destruct inputText as [|c text]; [done|].
    apply forallb_forall. intros c' Hc'%list_elem_of_In. by apply Hword. }
  rewrite filter_cons, decide_True by done. rewrite filter_nil. simpl.
  by rewrite app_nil_r.
Qed.

Lemma convertTextToUvlIdentifier_one_word_witness :
  V2.convertTextToUvlIdentifier (H := Sample.sample) (Some (py "fOLDING2"))
  = capitalize (Externals := Sample.sample) (py "fOLDING2").
Proof.
  apply (convertTextToUvlIdentifier_one_word (H := Sample.sample) (py "fOLDING2")).
  - discriminate.
  - intros c Hc.
    apply Forall_forall with (x := c) (l := py "fOLDING2")
      (P := λ c, char_isalnum (Externals := Sample.sample) c = true
                 ∧ Py.isspace c = false ∧ c ≠ UNDERSCORE); [|done].
    vm_compute. repeat constructor; discriminate.
Defined.

(** ** The tables read from mapping files *)

Section tables.
Context `{Externals}.
Implicit Types (m : gmap str str) (entries : list (str * str)) (lines : list str).




Lemma delimited_not_blank line : Spec.delimited line → ¬ Spec.blank line.
Proof.
  unfold Spec.delimited. intros Hd Hb%strip_blank.
  by rewrite <-contains_arrow_strip, Hb in Hd.
Qed.


(** The delimiter is found where the key ends, when the key does not hold it. *)
Lemma split_once_arrow (key feature : str) :
  ¬ Spec.substring (py "=>") key →
  Py.split_once (py "=>") (key ++ py "=>" ++ feature) = Some (key, feature).
Proof.
  induction key as [|c key IH]; intros Hkey; [done|].
  assert (¬ Spec.substring (py "=>") key) as Hkey'.
  { intros (a & b & ->). apply Hkey. by exists (c :: a), b. }
  rewrite <-app_comm_cons. cbn [Py.split_once]. rewrite IH by done.
  assert (Py.startswith (py "=>") (c :: key ++ py "=>" ++ feature) = false) as ->; [|done].
  apply not_true_is_false. intros [r Hr]%startswith_spec.
  change (py "=>") with [61; GT] in Hr. injection Hr as -> Hr.
  destruct key as [|c' key].
  - discriminate Hr.
  - injection Hr as -> _. apply Hkey. by exists [], key.
Qed.


End tables.


(** X16. A line [key=>feature] appended to a mapping file is read back: when
    [key] does not hold the delimiter, the table maps [normalizeText] of
    [key] to [feature] stripped, whatever the earlier lines are, and later
    occurrences of ["=>"] in the line stay in the feature. In
    [src/istar-uvl.py] this needs the line not to be a comment line. *)
Theorem loadMappingFile_reads_back `{Externals}
    (fs : files) (filePath : str) (before : list str) (key feature : str) :
  let line := key ++ py "=>" ++ feature in
  ¬ Spec.substring (py "=>") key →
  (¬ Spec.comment line →
   ∃ m, V2.loadMappingFile (<[filePath := before ++ [line]]> fs) filePath = Ok m
        ∧ m !! V2.normalizeText (Some key) = Some (Py.strip feature))
  ∧ (∃ m, V1.loadMappingFile (<[filePath := before ++ [line]]> fs) filePath = Ok m
          ∧ m !! V1.normalizeText (Some key) = Some (Py.strip feature)).
Proof.
  intros line Hkey.
  assert (Spec.delimited line) as Hd.
  { apply contains_spec. by exists key, feature. }
  assert (∀ normalize, Spec.entry normalize line
                       = Some (normalize (Some key), Py.strip feature)) as Hentry.
  { intros normalize. unfold Spec.entry, Spec.keyFeature, line.
    by rewrite split_once_arrow by done. }
  rewrite V2_loadMappingFile_table, V1_loadMappingFile_table, lookup_insert_eq.
  split.
  - intros Hc. eexists. split; [done|].
    rewrite filter_app, filter_cons, decide_True, filter_nil.
    + rewrite omap_app. cbn [omap list_omap]. rewrite Hentry.
      apply extend_last. apply not_elem_of_nil.
    + split_and!; [done|by apply delimited_not_blank|done].
  - eexists. split; [done|].
    rewrite filter_app, filter_cons, decide_True, filter_nil by done.
    rewrite omap_app. cbn [omap list_omap]. rewrite Hentry.
    apply extend_last. apply not_elem_of_nil.
Qed.

Lemma loadMappingFile_reads_back_witness :
  ∃ m, V2.loadMappingFile (H := Sample.sample)
         (<[py "config/nfrs.txt" :=
              [py "# speed"; py "fast => Speed"] ++ [py " Very  FAST " ++ py "=>" ++ py " A=>B "]]> ∅)
         (py "config/nfrs.txt") = Ok m
       ∧ m !! V2.normalizeText (H := Sample.sample) (Some (py " Very  FAST "))
         = Some (Py.strip (py " A=>B ")).
Proof.
  refine (proj1 (loadMappingFile_reads_back (H := Sample.sample)
                   ∅ (py "config/nfrs.txt") [py "# speed"; py "fast => Speed"]
                   (py " Very  FAST ") (py " A=>B ") _) _).
  - intros Hsub%contains_spec. vm_compute in Hsub. discriminate Hsub.
  - intros Hcomment. vm_compute in Hcomment. discriminate Hcomment.
Defined.

(** X17. When no line of a mapping file that holds the delimiter is a comment
    line, [loadMappingFile] of [src/iStar-UVL.py] reads exactly the lines that
    [loadMappingFile] of [src/istar-uvl.py] reads: its table is the table of
    the accepted lines. *)
Theorem loadMappingFile_same_lines `{Externals}
    (fs : files) (filePath : str) (lines : list str) :
  (∀ line, line ∈ lines → Spec.delimited line → ¬ Spec.comment line) →
  filter Spec.delimited lines = filter Spec.accepted lines
  ∧ V1.loadMappingFile (<[filePath := lines]> fs) filePath
    = Ok (Spec.table (omap (Spec.entry V1.normalizeText) (filter Spec.accepted lines))).
Proof.
  intros Hplain.
  assert (filter Spec.delimited lines = filter Spec.accepted lines) as Hsame.
  { induction lines as [|line lines IH]; [done|].
    rewrite !filter_cons, IH by (intros l Hl; apply Hplain; by right).
    destruct (decide (Spec.delimited line)) as [Hd|Hd].
    - rewrite decide_True; [done|].
      split_and!; [done|by apply delimited_not_blank|]. apply Hplain; [left|done].
    - rewrite decide_False; [done|]. by intros [? _]. }
  split; [done|].
  by rewrite V1_loadMappingFile_table, lookup_insert_eq, Hsame.
Qed.

Lemma loadMappingFile_same_lines_witness :
  V1.loadMappingFile (H := Sample.sample)
    (<[py "config/backend.txt" := [py "# backends"; py ""; py "gpu => Hardware"]]> ∅)
    (py "config/backend.txt")
  = Ok (Spec.table (omap (Spec.entry (V1.normalizeText (H := Sample.sample)))
                         (filter Spec.accepted
                                 [py "# backends"; py ""; py "gpu => Hardware"]))).
Proof.
  refine (proj2 (loadMappingFile_same_lines (H := Sample.sample)
                   ∅ (py "config/backend.txt")
                   [py "# backends"; py ""; py "gpu => Hardware"] _)).
  intros line Hline Hd Hc.
  repeat (apply elem_of_cons in Hline as [->|Hline]);
    [..|by apply elem_of_nil in Hline];
    vm_compute in Hd, Hc; first [discriminate Hd|discriminate Hc].
Defined.

(** ** A whole run *)

Section runs.
Context `{Externals}.
Implicit Types (fs : files) (objects : list DiagramObject).

Lemma rootGoal_test (obj : DiagramObject) :
  bool_decide (obj_type obj = py "goal") && negb (bool_decide (Py.strip (obj_label obj) = []))
  = true ↔ Spec.rootGoal obj.
Proof.
  unfold Spec.rootGoal.
  by rewrite andb_true_iff, negb_true_iff, bool_decide_eq_true, bool_decide_eq_false.
Qed.





End runs.



(** X20. The root label is the label of the first object, in list order, that
    is a goal with a label that is not blank: objects before it that are not
    goals or have a blank label are passed over, and every object after it is
    ignored. *)
Theorem firstGoalLabel_first
    (before after : list DiagramObject) (obj : DiagramObject) :
  Spec.rootGoal obj →
  (∀ other, other ∈ before → ¬ Spec.rootGoal other) →
  firstGoalLabel (before ++ obj :: after) = Some (obj_label obj).
Proof.
  intros Hgoal Hbefore. induction before as [|other before IH]; simpl.
  - apply rootGoal_test in Hgoal. by rewrite Hgoal.
  - pose proof (rootGoal_test other) as Htest. destruct (_ && _).
    + destruct (Hbefore other); [left|by apply Htest].
    + apply IH. intros o Ho. apply Hbefore. by right.
Qed.

Lemma firstGoalLabel_first_witness :
  firstGoalLabel
    ([{| obj_type := py "task"; obj_label := py "Simulate"; obj_norm := py "simulate" |};
      {| obj_type := py "goal"; obj_label := py ""; obj_norm := py "" |}]
     ++ {| obj_type := py "goal"; obj_label := py "Protein folding";
           obj_norm := py "protein folding" |}
     :: [{| obj_type := py "goal"; obj_label := py "Other"; obj_norm := py "other" |}])
  = Some (py "Protein folding").
Proof.
  apply (firstGoalLabel_first
           [{| obj_type := py "task"; obj_label := py "Simulate"; obj_norm := py "simulate" |};
            {| obj_type := py "goal"; obj_label := py ""; obj_norm := py "" |}]
           [{| obj_type := py "goal"; obj_label := py "Other"; obj_norm := py "other" |}]
           {| obj_type := py "goal"; obj_label := py "Protein folding";
              obj_norm := py "protein folding" |}).
  - split; [reflexivity|]. vm_compute. discriminate.
  - intros other Hother [Htype Hlabel].
    repeat (apply elem_of_cons in Hother as [->|Hother]);
      [..|by apply elem_of_nil in Hother].
    + vm_compute in Htype. discriminate Htype.
    + apply Hlabel. reflexivity.
Defined.

(** ** Whole runs on [Sample.sample] *)

Example run_both_scripts :
  V1.generateUvlFromIStarXml (H := Sample.sample) Sample.run_files Sample.run_elements (py "config")
  = Written (Py.join NL
      [py "features {"; py "  FoldProteins {"; py "    Algorithm {"; py "      AES";
       py "    }"; py "    Backend {"; py "      Hardware"; py "    }";
       py "    Precision"; py "  }"; py "}"; py "";
       py "constraints {"; py "  AES requires Precision"; py "}"])
  ∧ V2.generateUvlFromIStarXml (H := Sample.sample) Sample.run_files Sample.run_elements (py "config")
    = V1.generateUvlFromIStarXml (H := Sample.sample) Sample.run_files Sample.run_elements (py "config").
Proof. split; vm_compute; reflexivity. Qed.

Example run_without_goal :
  V1.generateUvlFromIStarXml (H := Sample.sample) Sample.run_files
    [{| elem_label := Some (py "Uses AES"); elem_type := Some (py "task") |}] (py "config")
  = Failed UnboundLocalError
  ∧ V2.generateUvlFromIStarXml (H := Sample.sample) Sample.run_files
      [{| elem_label := Some (py "Uses AES"); elem_type := Some (py "task") |}] (py "config")
    = Written (Py.join NL
        [py "features {"; py "  ProteinFolding {"; py "    Algorithm {"; py "      AES";
         py "    }"; py "    Backend {"; py "      Hardware"; py "    }"; py "  }";
         py "}"; py ""]).
Proof. split; vm_compute; reflexivity. Qed.
